(** * Keyword router and citation dispatcher of the multi-agent orchestrator

    A shallow embedding of [agents/orchestrator.py] ([route_query],
    [run_single_query]) and of the [POST /chat] handler of [main.py].

    Modelling conventions.
    - A Python [str] is a [string]; the text is taken on its ASCII range:
      [lower] maps 'A'..'Z' to 'a'..'z' and leaves every other character as
      it is, [strip] removes the ASCII characters for which [str.isspace]
      holds. On a text of ASCII characters ([is_ascii]) these are the
      methods of Python; a statement that says how a text is lower-cased,
      stripped or matched, and that could differ on other characters, takes
      [is_ascii] as a hypothesis.
    - A [dict] with string keys is a [gmap string _]: two dictionaries with
      the same items are equal, as in Python.
    - The response of an agent is its text and the dictionary of its other
      attributes. When the response has one of the attributes [citations],
      [context], [grounding_data], the attribute holds [None] or a list of
      objects, each the dictionary of its data attributes.
    - The agent framework is an external service: a call to [ChatAgent.run]
      is answered by a [service], which sees the calls made so far, and every
      call is recorded in a log that the computation threads along. The
      exceptions are those of class [Exception]. *)

From Stdlib Require Import NArith Ascii.
From stdpp Require Import base strings gmap list.

(** ** The [str] methods the router uses *)

Module PyStr.

(** [str.isspace] on one ASCII character: TAB, LF, VT, FF, CR, the four
    separators FS, GS, RS, US and the space. *)
Definition isspace (c : ascii) : bool :=
  let n := N_of_ascii c in
  (((9 <=? n) && (n <=? 13)) || ((28 <=? n) && (n <=? 32)))%N.

Definition isupper (c : ascii) : bool :=
  let n := N_of_ascii c in ((65 <=? n) && (n <=? 90))%N.

Definition lower_char (c : ascii) : ascii :=
  if isupper c then ascii_of_N (N_of_ascii c + 32)%N else c.

(** [s.lower()] *)
Fixpoint lower (s : string) : string :=
  match s with
  | EmptyString => EmptyString
  | String c t => String (lower_char c) (lower t)
  end.

(** [s.lstrip()] *)
Fixpoint lstrip (s : string) : string :=
  match s with
  | EmptyString => EmptyString
  | String c t => if isspace c then lstrip t else s
  end.

(** [s.rstrip()] *)
Fixpoint rstrip (s : string) : string :=
  match s with
  | EmptyString => EmptyString
  | String c t =>
      match rstrip t with
      | EmptyString => if isspace c then EmptyString else String c EmptyString
      | r => String c r
      end
  end.

(** [s.strip()] *)
Definition strip (s : string) : string := rstrip (lstrip s).

(** [s.startswith(p)] *)
Fixpoint startswith (p s : string) : bool :=
  match p, s with
  | EmptyString, _ => true
  | String _ _, EmptyString => false
  | String a p', String c s' => bool_decide (a = c) && startswith p' s'
  end.

(** [needle in hay] *)
Fixpoint contains (needle hay : string) : bool :=
  startswith needle hay ||
  match hay with
  | EmptyString => false
  | String _ t => contains needle t
  end.

(** The first and the last character of a string are not white space. *)
Definition head_nonspace (s : string) : bool :=
  match s with
  | EmptyString => false
  | String a _ => negb (isspace a)
  end.

Fixpoint last_nonspace (s : string) : bool :=
  match s with
  | EmptyString => false
  | String a EmptyString => negb (isspace a)
  | String _ t => last_nonspace t
  end.

Fixpoint all_space (s : string) : bool :=
  match s with
  | EmptyString => true
  | String c t => isspace c && all_space t
  end.

(** [w] occurs in [text] as a contiguous substring. *)
Definition occurs (w text : string) : Prop :=
  ∃ pre suf, text = pre +:+ w +:+ suf.

(** [kw] occurs in [text] up to the case of the letters. *)
Definition occurs_ci (kw text : string) : Prop :=
  ∃ w, occurs w text ∧ lower w = kw.

(** Every character of the text is an ASCII character. *)
Definition is_ascii_char (c : ascii) : bool := (N_of_ascii c <? 128)%N.

Fixpoint is_ascii (s : string) : bool :=
  match s with
  | EmptyString => true
  | String c t => is_ascii_char c && is_ascii t
  end.

Definition islower (c : ascii) : bool :=
  let n := N_of_ascii c in ((97 <=? n) && (n <=? 122))%N.

Definition upper_char (c : ascii) : ascii :=
  if islower c then ascii_of_N (N_of_ascii c - 32)%N else c.

(** [s.upper()] *)
Fixpoint upper (s : string) : string :=
  match s with
  | EmptyString => EmptyString
  | String c t => String (upper_char c) (upper t)
  end.

End PyStr.

(** ** The orchestrator *)

Module Orchestrator.
Import PyStr.

(** The tail of [route_query]: the reply of the routing agent is stripped,
    lower-cased and searched for the keywords, in this order. *)
Definition normalize_routing (text : string) : string :=
  let route := lower (strip text) in
  if contains "hr" route then "hr"
  else if contains "marketing" route || contains "brand" route
          || contains "campaign" route then "marketing"
  else if contains "product" route then "products"
  else "hr".

(** The algorithm in the words of the specification: lower-case the text,
    then the first matching rule decides. *)
Definition classify_spec (text : string) : string :=
  let t := lower text in
  if contains "hr" t then "hr"
  else if contains "marketing" t || contains "brand" t
          || contains "campaign" t then "marketing"
  else if contains "product" t then "products"
  else "hr".

(** The three categories and the five recognized keywords. *)
Definition categories : list string := ["hr"; "marketing"; "products"].

Definition keywords : list string :=
  ["hr"; "marketing"; "brand"; "campaign"; "product"].

(** *** Values and objects of the external response *)

(** The value of a data attribute of a cited item. *)
Inductive pyval :=
| PyNone
| PyStr (s : string)
| PyInt (n : Z).

#[global] Instance pyval_eq_dec : EqDecision pyval.
Proof. solve_decision. Defined.

(** Python truth value. *)
Definition truthy (v : pyval) : bool :=
  match v with
  | PyNone => false
  | PyStr s => negb (bool_decide (s = ""))
  | PyInt n => negb (bool_decide (n = 0%Z))
  end.

(** An object is the dictionary of its data attributes; an entry of
    [sources] is a [dict] of the same shape. *)
Abbreviation pyobj := (gmap string pyval).

(** The value of [citations], [context] or [grounding_data] when the
    response has the attribute: [None] or a list of items. *)
Inductive attr_value :=
| AttrNone
| AttrList (items : list pyobj).

Record AgentRunResponse := {
  text : string;
  attrs : gmap string attr_value
}.

(** [hasattr(response, name) and response.<name>] *)
Definition has_truthy (response : AgentRunResponse) (name : string) : bool :=
  match attrs response !! name with
  | Some (AttrList (_ :: _)) => true
  | _ => false
  end.

(** The items [for x in response.<name>] runs over. *)
Definition iter_attr (response : AgentRunResponse) (name : string) : list pyobj :=
  match attrs response !! name with
  | Some (AttrList l) => l
  | _ => []
  end.

(** *** Agents, exceptions and the external service *)

Inductive instructions_text :=
| HR_INSTRUCTIONS
| MARKETING_INSTRUCTIONS
| PRODUCTS_INSTRUCTIONS
| ROUTER_INSTRUCTIONS.

(** A [ChatAgent]: the [knowledge_base_name] of its context provider, if it
    has one, and its instructions. *)
Record ChatAgent := {
  context_provider : option string;
  instructions : instructions_text
}.

Inductive exn :=
| KeyError (key : string)
| ServiceError (msg : string).

(** [str(e)] *)
Definition exn_str (e : exn) : string :=
  match e with
  | KeyError k => "'" +:+ k +:+ "'"
  | ServiceError m => m
  end.

Inductive result (A : Type) :=
| Ok (a : A)
| Raise (e : exn).
Arguments Ok {A} a.
Arguments Raise {A} e.

(** One call of [agent.run(message)]: the agent and the text of the
    message. *)
Definition call : Type := ChatAgent * string.

(** The world outside: whether setting up the run fails (the credential, the
    client and the three context providers of the [async with] block), and
    what a run of an agent returns given the calls made before it. *)
Record service := {
  enter : option exn;
  run : list call → ChatAgent → string → result AgentRunResponse
}.

(** Computations that may raise and that log their external calls. *)
Definition M (A : Type) : Type := service → list call → result A * list call.

Definition raise {A} (e : exn) : M A := λ _ log, (Raise e, log).

#[global] Instance M_ret : MRet M := λ A a _ log, (Ok a, log).

#[global] Instance M_bind : MBind M := λ A B k m svc log,
  match m svc log with
  | (Ok a, log') => k a svc log'
  | (Raise e, log') => (Raise e, log')
  end.

(** [async with ( ... ):] *)
Definition enter_contexts : M unit :=
  λ svc log,
    match enter svc with
    | Some e => (Raise e, log)
    | None => (Ok tt, log)
    end.

(** [await agent.run(message)] *)
Definition agent_run (agent : ChatAgent) (message : string) : M AgentRunResponse :=
  λ svc log, (run svc log agent message, log ++ [(agent, message)]).

(** [d[key]] *)
Definition getitem {A} (d : gmap string A) (key : string) : M A :=
  match d !! key with
  | Some a => mret a
  | None => raise (KeyError key)
  end.

(** *** [route_query] *)

Definition route_query (client : ChatAgent) (query : string) : M string :=
  response ← agent_run client query;
  mret (normalize_routing (text response)).

(** *** [run_single_query] *)

Definition kb_map : gmap string string :=
  {[ "hr" := "kb1-hr";
     "marketing" := "kb2-marketing";
     "products" := "kb3-products" ]}.

Definition router : ChatAgent :=
  {| context_provider := None; instructions := ROUTER_INSTRUCTIONS |}.

Definition specialists : gmap string ChatAgent :=
  {[ "hr" := {| context_provider := Some "kb1-hr";
                instructions := HR_INSTRUCTIONS |};
     "marketing" := {| context_provider := Some "kb2-marketing";
                       instructions := MARKETING_INSTRUCTIONS |};
     "products" := {| context_provider := Some "kb3-products";
                      instructions := PRODUCTS_INSTRUCTIONS |} ]}.

(** [if hasattr(obj, attr) and obj.<attr>: source_info[key] = obj.<attr>] *)
Definition set_if_truthy (obj : pyobj) (attr key : string) (source_info : pyobj) : pyobj :=
  match obj !! attr with
  | Some v => if truthy v then <[key := v]> source_info else source_info
  | None => source_info
  end.

(** [if hasattr(obj, attr): source_info[key] = obj.<attr>] *)
Definition set_if_has (obj : pyobj) (attr key : string) (source_info : pyobj) : pyobj :=
  match obj !! attr with
  | Some v => <[key := v]> source_info
  | None => source_info
  end.

(** [if len(source_info) > 1: sources.append(source_info)] *)
Definition append_if_more (sources : list pyobj) (source_info : pyobj) : list pyobj :=
  if bool_decide (1 < size source_info) then sources ++ [source_info] else sources.

(** The [source_info] built in the body of each of the three loops. *)
Definition citation_info (kb_name : string) (citation : pyobj) : pyobj :=
  let source_info := {[ "kb" := PyStr kb_name ]} in
  let source_info := set_if_truthy citation "title" "title" source_info in
  let source_info := set_if_truthy citation "filepath" "filepath" source_info in
  let source_info := set_if_truthy citation "url" "url" source_info in
  let source_info := set_if_truthy citation "chunk_id" "chunk_id" source_info in
  source_info.

Definition context_info (kb_name : string) (ctx : pyobj) : pyobj :=
  let source_info := {[ "kb" := PyStr kb_name ]} in
  let source_info := set_if_has ctx "title" "title" source_info in
  let source_info := set_if_has ctx "source" "filepath" source_info in
  source_info.

Definition grounding_info (kb_name : string) (data : pyobj) : pyobj :=
  let source_info := {[ "kb" := PyStr kb_name ]} in
  let source_info := set_if_has data "title" "title" source_info in
  let source_info := set_if_has data "filepath" "filepath" source_info in
  source_info.

(** A [for] loop that appends to [sources]. *)
Definition collect (info : pyobj → pyobj) (items : list pyobj)
    (sources : list pyobj) : list pyobj :=
  foldl (λ acc x, append_if_more acc (info x)) sources items.

(** [not sources] *)
Definition is_empty (sources : list pyobj) : bool :=
  match sources with [] => true | _ => false end.

(** The three blocks, each a transformation of the list [sources]. *)
Definition try_citations (kb_name : string) (response : AgentRunResponse)
    (sources : list pyobj) : list pyobj :=
  if has_truthy response "citations"
  then collect (citation_info kb_name) (iter_attr response "citations") sources
  else sources.

Definition try_context (kb_name : string) (response : AgentRunResponse)
    (sources : list pyobj) : list pyobj :=
  if is_empty sources && has_truthy response "context"
  then collect (context_info kb_name) (iter_attr response "context") sources
  else sources.

Definition try_grounding_data (kb_name : string) (response : AgentRunResponse)
    (sources : list pyobj) : list pyobj :=
  if is_empty sources && has_truthy response "grounding_data"
  then collect (grounding_info kb_name) (iter_attr response "grounding_data") sources
  else sources.

(** Lines 213-251: [sources] after the three blocks. *)
Definition extract_sources (kb_name : string) (response : AgentRunResponse) : list pyobj :=
  let sources := [] in
  let sources := try_citations kb_name response sources in
  let sources := try_context kb_name response sources in
  let sources := try_grounding_data kb_name response sources in
  sources.

Definition doc (kb_name title filepath : string) : pyobj :=
  {[ "kb" := PyStr kb_name; "title" := PyStr title; "filepath" := PyStr filepath ]}.

Definition default_docs (kb_name : string) : gmap string (list pyobj) :=
  {[ "hr" :=
       [ doc kb_name "Employee_Handbook.pdf" "hr-policies/Employee_Handbook.pdf";
         doc kb_name "PTO_Policy_2024.docx" "hr-policies/PTO_Policy_2024.docx";
         doc kb_name "Benefits_Guide.pdf" "hr-policies/Benefits_Guide.pdf" ];
     "marketing" :=
       [ doc kb_name "Brand_Guidelines.pdf" "marketing/Brand_Guidelines.pdf";
         doc kb_name "Campaign_Playbook.pptx" "marketing/Campaign_Playbook.pptx" ];
     "products" :=
       [ doc kb_name "Product_Catalog_2024.xlsx" "products/Product_Catalog_2024.xlsx";
         doc kb_name "Specifications.pdf" "products/Specifications.pdf" ] ]}.

(** Lines 253-271: the default sources when nothing was found. *)
Definition or_default (route kb_name : string) (sources : list pyobj) : list pyobj :=
  if is_empty sources
  then default [doc kb_name "Knowledge Base" kb_name] (default_docs kb_name !! route)
  else sources.

(** [kb_map.get(route, "unknown")] *)
Definition kb_name_of (route : string) : string :=
  default "unknown" (kb_map !! route).

Definition run_single_query (query : string) : M (string * string * list pyobj) :=
  enter_contexts;;
  route ← route_query router query;
  agent ← getitem specialists route;
  response ← agent_run agent query;
  let kb_name := kb_name_of route in
  let sources := extract_sources kb_name response in
  let sources := or_default route kb_name sources in
  mret (route, text response, sources).

(** *** Notions the statements about the dispatcher use *)

(** The references one attribute of the response yields: the entry built
    from each of its items, when the entry has more than the [kb] key. *)
Definition references (info : pyobj → pyobj) (response : AgentRunResponse)
    (name : string) : list pyobj :=
  filter (λ source_info, 1 < size source_info) (info <$> iter_attr response name).

(** The first list that is not empty, the empty list if there is none. *)
Fixpoint first_nonempty (ls : list (list pyobj)) : list pyobj :=
  match ls with
  | [] => []
  | l :: rest => if is_empty l then first_nonempty rest else l
  end.

Definition probed_attributes : list string :=
  ["citations"; "context"; "grounding_data"].

Definition metadata_keys : list string :=
  ["title"; "filepath"; "url"; "chunk_id"].

(** The invariant of a [source_info] under construction: it binds [kb] to
    the knowledge base and has no key besides [kb] and the metadata keys. *)
Definition candidate (kb : string) (si : pyobj) : Prop :=
  si !! "kb" = Some (PyStr kb)
  ∧ ∀ key, is_Some (si !! key) → key = "kb" ∨ key ∈ metadata_keys.

(** The default documents of each category, with the knowledge base written
    out. *)
Definition fixed_defaults (route : string) : list pyobj :=
  if bool_decide (route = "hr") then
    [ doc "kb1-hr" "Employee_Handbook.pdf" "hr-policies/Employee_Handbook.pdf";
      doc "kb1-hr" "PTO_Policy_2024.docx" "hr-policies/PTO_Policy_2024.docx";
      doc "kb1-hr" "Benefits_Guide.pdf" "hr-policies/Benefits_Guide.pdf" ]
  else if bool_decide (route = "marketing") then
    [ doc "kb2-marketing" "Brand_Guidelines.pdf" "marketing/Brand_Guidelines.pdf";
      doc "kb2-marketing" "Campaign_Playbook.pptx" "marketing/Campaign_Playbook.pptx" ]
  else if bool_decide (route = "products") then
    [ doc "kb3-products" "Product_Catalog_2024.xlsx" "products/Product_Catalog_2024.xlsx";
      doc "kb3-products" "Specifications.pdf" "products/Specifications.pdf" ]
  else [].

End Orchestrator.

(** ** The HTTP layer *)

Module Main.
Import Orchestrator.

Module ChatRequest.
Record t := {
  message : string;
  session_id : option string;
  agent : option string
}.
End ChatRequest.

Module ChatResponse.
Record t := {
  message : string;
  agent : string;
  sources : list pyobj
}.
End ChatResponse.

(** What the handler hands to the framework: the response model, or an
    [HTTPException] with its status code and detail. *)
Inductive http_result :=
| Returned (response : ChatResponse.t)
| HTTPException (status_code : Z) (detail : string).

(** [POST /chat] *)
Definition chat (request : ChatRequest.t) (svc : service) (log : list call)
    : http_result * list call :=
  match run_single_query (ChatRequest.message request) svc log with
  | (Ok (route, response_text, sources), log') =>
      (Returned {| ChatResponse.message := response_text;
                   ChatResponse.agent := route +:+ "-agent";
                   ChatResponse.sources := sources |}, log')
  | (Raise e, log') => (HTTPException 500 (exn_str e), log')
  end.

End Main.

(** ** The interactive loop of [run_orchestrator] *)

Module Cli.
Import PyStr Orchestrator.

(** What one call of [input] brings: a line, a [KeyboardInterrupt] at the
    prompt, or an exception of class [Exception] (an [EOFError] on a closed
    input). *)
Inductive input_event :=
| Line (s : string)
| Interrupt
| InputRaises (e : exn).

(** What the loop writes, without the decoration of the lines: the banner
    (the four lines before the loop), the prompt of [input], the two
    farewells, the announcement of the route, the response with the
    separator line after it, and the error line. *)
Inductive output :=
| Banner
| Prompt
| Goodbye
| GoodbyeInterrupted
| RoutingTo (name : string)
| Response (response_text : string)
| Separator
| Error (msg : string).

Inductive status :=
| Continue
| Break.

Definition quit_words : list string := ["quit"; "exit"; "q"].

(** One pass through the body of [while True]: what is written, the calls
    logged, and whether the loop goes on. *)
Definition loop_iteration (svc : service) (ev : input_event) (log : list call)
    : status * list output * list call :=
  match ev with
  | Interrupt => (Break, [Prompt; GoodbyeInterrupted], log)
  | InputRaises e => (Continue, [Prompt; Error (exn_str e)], log)
  | Line s =>
      let query := strip s in
      if bool_decide (query = "") then (Continue, [Prompt], log)
      else if bool_decide (lower query ∈ quit_words)
      then (Break, [Prompt; Goodbye], log)
      else
        match route_query router query svc log with
        | (Raise e, log1) => (Continue, [Prompt; Error (exn_str e)], log1)
        | (Ok route, log1) =>
            match getitem specialists route svc log1 with
            | (Raise e, log2) =>
                (Continue,
                 [Prompt; RoutingTo (upper route); Error (exn_str e)], log2)
            | (Ok agent, log2) =>
                match agent_run agent query svc log2 with
                | (Raise e, log3) =>
                    (Continue,
                     [Prompt; RoutingTo (upper route); Error (exn_str e)], log3)
                | (Ok response, log3) =>
                    (Continue,
                     [Prompt; RoutingTo (upper route);
                      Response (text response); Separator], log3)
                end
            end
        end
  end.

(** The loop over the inputs that arrive; with [Continue] the loop is back at
    the prompt when they are used up. *)
Fixpoint loop (svc : service) (inputs : list input_event) (log : list call)
    : status * list output * list call :=
  match inputs with
  | [] => (Continue, [], log)
  | ev :: rest =>
      match loop_iteration svc ev log with
      | (Break, out, log') => (Break, out, log')
      | (Continue, out, log') =>
          match loop svc rest log' with
          | (st, out', log'') => (st, out ++ out', log'')
          end
      end
  end.

(** [run_orchestrator]: an exception on entering the [async with] block is
    not caught; inside, the banner is written and the loop runs. *)
Definition run_orchestrator (inputs : list input_event) : M (status * list output) :=
  λ svc log,
    match enter svc with
    | Some e => (Raise e, log)
    | None =>
        match loop svc inputs log with
        | (st, out, log') => (Ok (st, Banner :: out), log')
        end
    end.

(** Every line that arrives is a text of ASCII characters. *)
Definition ascii_inputs (inputs : list input_event) : bool :=
  forallb (λ ev, match ev with Line s => is_ascii s | _ => true end) inputs.

(** The inputs that end the loop: an interrupt, and a line that is a quit
    word once stripped and lower-cased. *)
Definition stops (ev : input_event) : bool :=
  match ev with
  | Interrupt => true
  | Line s => bool_decide (lower (strip s) ∈ quit_words)
  | InputRaises _ => false
  end.

End Cli.

(** ** [GET /agents] *)

Module Agents.

Module AgentEntry.
Record t := {
  id : string;
  name : string;
  description : string;
  kb : option string;
  color : string
}.
End AgentEntry.

Definition list_agents : list AgentEntry.t :=
  [ {| AgentEntry.id := "orchestrator";
       AgentEntry.name := "Orchestrator";
       AgentEntry.description :=
         "Routes requests to specialized agents based on query content";
       AgentEntry.kb := None;
       AgentEntry.color := "#6366F1" |};
    {| AgentEntry.id := "hr";
       AgentEntry.name := "HR Agent";
       AgentEntry.description :=
         "Handles HR policies, PTO, benefits, and employee handbook queries";
       AgentEntry.kb := Some "kb1-hr";
       AgentEntry.color := "#8B5CF6" |};
    {| AgentEntry.id := "marketing";
       AgentEntry.name := "Marketing Agent";
       AgentEntry.description :=
         "Handles marketing campaigns, brand, and competitor analysis";
       AgentEntry.kb := Some "kb2-marketing";
       AgentEntry.color := "#EC4899" |};
    {| AgentEntry.id := "products";
       AgentEntry.name := "Products Agent";
       AgentEntry.description :=
         "Handles product catalog, features, and specifications";
       AgentEntry.kb := Some "kb3-products";
       AgentEntry.color := "#10B981" |} ].

End Agents.

(** ** Sample responses and services *)

Module Samples.
Import Orchestrator Main.

Definition cited_response : AgentRunResponse :=
  {| text := "See the handbook.";
     attrs := {[ "citations" :=
                   AttrList [ {[ "title" := PyStr "Employee_Handbook.pdf" ]};
                              {[ "title" := PyStr "" ]} ];
                 "context" := AttrList [ {[ "source" := PyStr "ctx.txt" ]} ] ]} |}.

(** A response whose citation carries only an empty title, whose context item
    has a source and a title that is [None], and that has grounding data. *)
Definition context_response : AgentRunResponse :=
  {| text := "See the campaign playbook.";
     attrs := {[ "citations" := AttrList [ {[ "title" := PyStr "" ]} ];
                 "context" :=
                   AttrList [ {[ "title" := PyNone;
                                 "source" := PyStr "marketing/playbook.md" ]} ];
                 "grounding_data" :=
                   AttrList [ {[ "title" := PyStr "Brand_Guidelines.pdf" ]} ] ]} |}.

(** A specialist reply without any citation attribute. *)
Definition plain_response : AgentRunResponse :=
  {| text := "You accrue 1.5 days of PTO per month."; attrs := ∅ |}.

(** The routing agent answers "HR"; the specialists answer without
    citations. *)
Definition plain_service : service :=
  {| enter := None;
     run := λ _ agent _,
       match context_provider agent with
       | None => Ok {| text := " HR "; attrs := ∅ |}
       | Some _ => Ok plain_response
       end |}.

(** The routing agent answers "products"; the specialist call fails. *)
Definition failing_service : service :=
  {| enter := None;
     run := λ _ agent _,
       match context_provider agent with
       | None => Ok {| text := "products"; attrs := ∅ |}
       | Some _ => Raise (ServiceError "upstream timeout")
       end |}.

Definition pto_request : ChatRequest.t :=
  {| ChatRequest.message := "How many PTO days do I have?";
     ChatRequest.session_id := None;
     ChatRequest.agent := None |}.

End Samples.

(** ** Sample sessions of the interactive loop *)

Module Sessions.
Import Orchestrator Cli.

(** Every call of an agent fails. *)
Definition broken_service : service :=
  {| enter := None;
     run := λ _ _ _, Raise (ServiceError "connection refused") |}.


(** A question, a closed input, a blank line, a quit word in capitals and a
    line after it. *)
Definition session : list input_event :=
  [ Line " What are the product specs? ";
    InputRaises (ServiceError "EOF when reading a line");
    Line "   ";
    Line " QUIT ";
    Line "Tell me about our brand campaign" ].

End Sessions.

(** * Properties *)

(** ** Substring search, [lower] and [strip] *)

Module PyStrFacts.
Import PyStr.

Lemma app_cons a (s t : string) : String a s +:+ t = String a (s +:+ t).
Proof. reflexivity. Qed.

Lemma app_nil_l (s : string) : "" +:+ s = s.
Proof. reflexivity. Qed.

Lemma startswith_app (p s : string) : startswith p (p +:+ s) = true.
Proof.
  induction p as [|a p IH]; [done|].
  rewrite app_cons. simpl. rewrite bool_decide_eq_true_2 by done. exact IH.
Qed.

Lemma startswith_inv (p s : string) :
  startswith p s = true → ∃ suf, s = p +:+ suf.
Proof.
  revert s. induction p as [|a p IH]; intros s H.
  - by exists s.
  - destruct s as [|c s]; [done|]. simpl in H.
    apply andb_prop in H as [Hac Hp].
    apply bool_decide_eq_true_1 in Hac as <-.
    destruct (IH _ Hp) as [suf ->]. by exists suf.
Qed.

Lemma startswith_contains (p s : string) :
  startswith p s = true → contains p s = true.
Proof. intros H. destruct s; simpl; by rewrite H. Qed.

(** The search [needle in hay] decides the occurrence of [needle]. *)
Lemma contains_occurs (needle hay : string) :
  contains needle hay = true ↔ occurs needle hay.
Proof.
  split.
  - induction hay as [|c hay IH]; simpl; intros H.
    + rewrite orb_false_r in H. destruct (startswith_inv _ _ H) as [suf ->].
      by exists "", suf.
    + apply orb_prop in H as [H|H].
      * destruct (startswith_inv _ _ H) as [suf ->]. by exists "", suf.
      * destruct (IH H) as (pre & suf & ->). by exists (String c pre), suf.
  - intros (pre & suf & ->). induction pre as [|c pre IH].
    + rewrite app_nil_l. apply startswith_contains, startswith_app.
    + rewrite app_cons. simpl. rewrite IH. apply orb_true_r.
Qed.

Lemma lower_app (s t : string) : lower (s +:+ t) = lower s +:+ lower t.
Proof.
  induction s as [|a s IH]; [done|].
  rewrite app_cons. simpl. rewrite IH. done.
Qed.

(** A decomposition of [lower text] comes from one of [text]. *)
Lemma lower_app_inv (text a b : string) :
  lower text = a +:+ b →
  ∃ a' b', text = a' +:+ b' ∧ lower a' = a ∧ lower b' = b.
Proof.
  revert text. induction a as [|c a IH]; intros text H.
  - exists "", text. by rewrite app_nil_l in H.
  - destruct text as [|d text]; [done|].
    rewrite app_cons in H. simpl in H. injection H as Hc Ht.
    destruct (IH _ Ht) as (a' & b' & -> & <- & <-).
    exists (String d a'), b'. simpl. by rewrite Hc.
Qed.

(** Occurrence up to case is occurrence in the lower-cased text. *)
Lemma occurs_ci_lower (kw text : string) :
  occurs_ci kw text ↔ occurs kw (lower text).
Proof.
  split.
  - intros (w & (pre & suf & ->) & <-).
    exists (lower pre), (lower suf). by rewrite !lower_app.
  - intros (pre & suf & H).
    apply lower_app_inv in H as (pre' & rest & -> & <- & H).
    apply lower_app_inv in H as (w & suf' & -> & <- & <-).
    exists w. split; [by exists pre', suf'|done].
Qed.

Lemma contains_lower_ci (kw text : string) :
  contains kw (lower text) = true ↔ occurs_ci kw text.
Proof. by rewrite contains_occurs, occurs_ci_lower. Qed.

Lemma isspace_lower_char c : isspace (lower_char c) = isspace c.
Proof. by destruct c as [[] [] [] [] [] [] [] []]. Qed.

Lemma lower_lstrip s : lower (lstrip s) = lstrip (lower s).
Proof.
  induction s as [|c s IH]; [done|]. simpl.
  rewrite isspace_lower_char. by destruct (isspace c).
Qed.

Lemma lower_rstrip s : lower (rstrip s) = rstrip (lower s).
Proof.
  induction s as [|c s IH]; [done|]. simpl.
  rewrite <- IH, isspace_lower_char.
  destruct (rstrip s); simpl; [by destruct (isspace c)|done].
Qed.

Lemma lower_strip s : lower (strip s) = strip (lower s).
Proof. unfold strip. by rewrite lower_rstrip, lower_lstrip. Qed.

(** Leading white space hides no occurrence of a word that starts with
    another character. *)
Lemma contains_lstrip (w s : string) :
  head_nonspace w = true → contains w (lstrip s) = contains w s.
Proof.
  intros Hw. induction s as [|c s IH]; [done|].
  cbn [lstrip]. destruct (isspace c) eqn:Hc; [|done].
  rewrite IH. cbn [contains].
  destruct w as [|a w]; [done|]. cbn [startswith].
  rewrite bool_decide_eq_false_2; [done|].
  intros ->. simpl in Hw. by rewrite Hc in Hw.
Qed.

Lemma rstrip_all_space s : all_space s = true → rstrip s = "".
Proof.
  induction s as [|c s IH]; [done|]. simpl.
  intros [Hc Hs]%andb_prop. by rewrite IH, Hc.
Qed.

Lemma rstrip_nil_all_space s : rstrip s = "" → all_space s = true.
Proof.
  induction s as [|c s IH]; [done|]. simpl.
  destruct (rstrip s); [|done].
  destruct (isspace c); [|done]. intros _. by apply IH.
Qed.

Lemma last_nonspace_cons a w :
  w ≠ "" → last_nonspace (String a w) = last_nonspace w.
Proof. by destruct w. Qed.

Lemma startswith_cons a c (p s : string) :
  startswith (String a p) (String c s) = bool_decide (a = c) && startswith p s.
Proof. reflexivity. Qed.

Lemma startswith_all_space (w s : string) :
  last_nonspace w = true → all_space s = true → startswith w s = false.
Proof.
  revert s. induction w as [|a w IH]; intros s Hw Hs; [done|].
  destruct s as [|c s]; [done|]. simpl in Hs.
  apply andb_prop in Hs as [Hc Hs]. rewrite startswith_cons.
  destruct w as [|b w].
  - simpl in Hw. rewrite bool_decide_eq_false_2; [done|].
    intros ->. by rewrite Hc in Hw.
  - rewrite (IH s); [apply andb_false_r|exact Hw|exact Hs].
Qed.

Lemma startswith_rstrip (w s : string) :
  last_nonspace w = true → startswith w (rstrip s) = startswith w s.
Proof.
  revert w. induction s as [|c s IH]; intros w Hw; [done|].
  destruct w as [|a w]; [done|].
  rewrite startswith_cons.
  cbn [rstrip]. destruct (rstrip s) as [|r0 r] eqn:Hr.
  - pose proof (rstrip_nil_all_space _ Hr) as Hs.
    destruct w as [|b w].
    + simpl in Hw. destruct (isspace c) eqn:Hc.
      * rewrite bool_decide_eq_false_2; [done|].
        intros ->. by rewrite Hc in Hw.
      * by rewrite startswith_cons.
    + rewrite (startswith_all_space (String b w) s Hw Hs), andb_false_r.
      destruct (isspace c); [done|].
      rewrite startswith_cons. apply andb_false_r.
  - rewrite startswith_cons. destruct w as [|b w]; [done|].
    rewrite IH; [done|exact Hw].
Qed.

(** Trailing white space hides no occurrence of a word that ends with
    another character. *)
Lemma contains_rstrip (w s : string) :
  last_nonspace w = true → contains w (rstrip s) = contains w s.
Proof.
  intros Hw. induction s as [|c s IH]; [done|].
  cbn [contains]. rewrite <- (startswith_rstrip w (String c s) Hw), <- IH.
  cbn [rstrip]. destruct (rstrip s) as [|r0 r] eqn:Hr.
  - destruct w as [|a w]; [done|].
    destruct (isspace c); simpl; by rewrite ?orb_false_r.
  - done.
Qed.

Lemma contains_strip (w s : string) :
  head_nonspace w = true → last_nonspace w = true →
  contains w (strip s) = contains w s.
Proof.
  intros Hh Hl. unfold strip.
  by rewrite contains_rstrip, contains_lstrip.
Qed.

(** On the stripped and lower-cased reply a keyword is found exactly when
    it is found in the lower-cased reply. *)
Lemma contains_lower_strip (w s : string) :
  head_nonspace w = true → last_nonspace w = true →
  contains w (lower (strip s)) = contains w (lower s).
Proof. intros Hh Hl. by rewrite lower_strip, contains_strip. Qed.

End PyStrFacts.

(** ** The router *)

Module Router.
Import PyStr PyStrFacts Orchestrator.

(** Stripping the reply changes no keyword test: the code computes the
    rule list of the specification on the lower-cased reply. *)
Lemma normalize_routing_spec (text : string) :
  normalize_routing text = classify_spec text.
Proof.
  unfold normalize_routing, classify_spec.
  by rewrite !contains_lower_strip.
Qed.

Lemma contains_lower_false (kw text : string) :
  ¬ occurs_ci kw text → contains kw (lower text) = false.
Proof.
  intros H. apply not_true_is_false. by rewrite contains_lower_ci.
Qed.

Lemma normalize_routing_hr (text : string) :
  occurs_ci "hr" text → normalize_routing text = "hr".
Proof.
  intros H%contains_lower_ci.
  rewrite normalize_routing_spec. unfold classify_spec. by rewrite H.
Qed.

Lemma normalize_routing_marketing (text : string) :
  ¬ occurs_ci "hr" text →
  occurs_ci "marketing" text ∨ occurs_ci "brand" text ∨ occurs_ci "campaign" text →
  normalize_routing text = "marketing".
Proof.
  intros Hhr%contains_lower_false Hm.
  rewrite normalize_routing_spec. unfold classify_spec. rewrite Hhr.
  destruct Hm as [H|[H|H]]; apply contains_lower_ci in H; rewrite H;
    by rewrite ?orb_true_r.
Qed.

Lemma normalize_routing_products (text : string) :
  ¬ occurs_ci "hr" text → ¬ occurs_ci "marketing" text →
  ¬ occurs_ci "brand" text → ¬ occurs_ci "campaign" text →
  occurs_ci "product" text →
  normalize_routing text = "products".
Proof.
  intros H1%contains_lower_false H2%contains_lower_false
    H3%contains_lower_false H4%contains_lower_false H5%contains_lower_ci.
  rewrite normalize_routing_spec. unfold classify_spec.
  by rewrite H1, H2, H3, H4, H5.
Qed.

Lemma normalize_routing_default (text : string) :
  (∀ kw, kw ∈ keywords → ¬ occurs_ci kw text) →
  normalize_routing text = "hr".
Proof.
  intros H.
  rewrite normalize_routing_spec. unfold classify_spec.
  rewrite !contains_lower_false; [done|apply H; unfold keywords; set_solver..].
Qed.

Lemma normalize_routing_category (text : string) :
  normalize_routing text ∈ categories.
Proof.
  unfold normalize_routing, categories.
  repeat case_match; set_solver.
Qed.


Lemma route_query_raise client query svc log e :
  run svc log client query = Raise e →
  route_query client query svc log = (Raise e, log ++ [(client, query)]).
Proof.
  intros H. unfold route_query, mbind, M_bind, agent_run. by rewrite H.
Qed.



(** C2: a text in which "hr" occurs, in any case of the letters, is
    classified as hr, whatever other keywords occur in it. *)
Theorem hr_wins (text : string) :
  occurs_ci "hr" text → normalize_routing text = "hr".
Proof.
  intros Hhr%contains_lower_ci.
  rewrite normalize_routing_spec. unfold classify_spec.
  rewrite Hhr. reflexivity.
Qed.

Lemma hr_wins_witness :
  occurs_ci "hr" "Our HR brand campaign for the product"
  ∧ normalize_routing "Our HR brand campaign for the product" = "hr".
Proof.
  assert (occurs_ci "hr" "Our HR brand campaign for the product") as H.
  { exists "HR". split; [|reflexivity].
    exists "Our ", " brand campaign for the product". reflexivity. }
  split; [exact H|]. exact (hr_wins _ H).
Defined.



End Router.

(** ** The dispatcher: citation extraction *)

Module Citations.
Import Orchestrator Samples.

Lemma collect_app info items sources :
  collect info items sources
  = sources ++ filter (λ si : pyobj, 1 < size si) (info <$> items).
Proof.
  unfold collect. revert sources.
  induction items as [|x items IH]; intros sources; simpl.
  - by rewrite app_nil_r.
  - rewrite IH. unfold append_if_more. case_bool_decide.
    + rewrite filter_cons_True by done. by rewrite <- app_assoc.
    + by rewrite filter_cons_False.
Qed.

Lemma has_truthy_false_iter response name :
  has_truthy response name = false → iter_attr response name = [].
Proof.
  unfold has_truthy, iter_attr.
  by destruct (attrs response !! name) as [[|[|x l]]|].
Qed.

Lemma block_references info response name :
  (if has_truthy response name
   then collect info (iter_attr response name) []
   else [])
  = references info response name.
Proof.
  unfold references. destruct (has_truthy response name) eqn:H.
  - by rewrite collect_app.
  - by rewrite (has_truthy_false_iter _ _ H).
Qed.

Lemma try_citations_nil kb response :
  try_citations kb response []
  = references (citation_info kb) response "citations".
Proof. apply block_references. Qed.

Lemma try_context_cases kb response sources :
  try_context kb response sources
  = if is_empty sources
    then references (context_info kb) response "context"
    else sources.
Proof.
  unfold try_context. destruct sources; [|done].
  apply block_references.
Qed.

Lemma try_grounding_data_cases kb response sources :
  try_grounding_data kb response sources
  = if is_empty sources
    then references (grounding_info kb) response "grounding_data"
    else sources.
Proof.
  unfold try_grounding_data. destruct sources; [|done].
  apply block_references.
Qed.

Lemma extract_sources_first kb response :
  extract_sources kb response
  = first_nonempty
      [ references (citation_info kb) response "citations";
        references (context_info kb) response "context";
        references (grounding_info kb) response "grounding_data" ].
Proof.
  unfold extract_sources.
  rewrite try_citations_nil, try_context_cases, try_grounding_data_cases.
  simpl.
  destruct (references (citation_info kb) response "citations"); [|done].
  simpl.
  destruct (references (context_info kb) response "context"); [|done].
  simpl.
  by destruct (references (grounding_info kb) response "grounding_data").
Qed.

Lemma references_ext info r r' name :
  attrs r' !! name = attrs r !! name →
  references info r' name = references info r name.
Proof. intros H. unfold references, iter_attr. by rewrite H. Qed.

Lemma is_empty_nil (l : list pyobj) : l ≠ [] → is_empty l = false.
Proof. by destruct l. Qed.

(** C4: the sources extracted from a response are the references of the
    first of the attributes citations, context, grounding_data that yields
    at least one; they depend on no other attribute of the response, and
    not on context and grounding_data once citations yields a reference,
    nor on grounding_data once context does. *)
Theorem citation_priority (kb : string) (r : AgentRunResponse) :
  extract_sources kb r
  = first_nonempty
      [ references (citation_info kb) r "citations";
        references (context_info kb) r "context";
        references (grounding_info kb) r "grounding_data" ]
  ∧ (∀ r', (∀ name, name ∈ probed_attributes →
                    attrs r' !! name = attrs r !! name) →
           extract_sources kb r' = extract_sources kb r)
  ∧ (references (citation_info kb) r "citations" ≠ [] →
     ∀ r', attrs r' !! "citations" = attrs r !! "citations" →
           extract_sources kb r' = references (citation_info kb) r "citations")
  ∧ (references (citation_info kb) r "citations" = [] →
     references (context_info kb) r "context" ≠ [] →
     ∀ r', attrs r' !! "citations" = attrs r !! "citations" →
           attrs r' !! "context" = attrs r !! "context" →
           extract_sources kb r' = references (context_info kb) r "context")
  ∧ (references (citation_info kb) r "citations" = [] →
     references (context_info kb) r "context" = [] →
     extract_sources kb r = references (grounding_info kb) r "grounding_data").
Proof.
  split; [apply extract_sources_first|].
  split.
  { intros r' H. rewrite !extract_sources_first.
    rewrite !(references_ext _ r r'); [done|apply H; unfold probed_attributes; set_solver..]. }
  split.
  { intros Hc r' H1. rewrite extract_sources_first.
    rewrite (references_ext _ r r' "citations" H1). simpl.
    by rewrite is_empty_nil. }
  split.
  { intros Hc Hx r' H1 H2. rewrite extract_sources_first.
    rewrite (references_ext _ r r' "citations" H1),
      (references_ext _ r r' "context" H2), Hc. simpl.
    by rewrite is_empty_nil. }
  intros Hc Hx. rewrite extract_sources_first, Hc, Hx. simpl.
  by destruct (references (grounding_info kb) r "grounding_data").
Qed.

(** Citations win over context; context is used when the citations yield
    no reference, and then grounding data is not consulted. A context field
    that is [None] is kept. *)
Example cited_response_sources :
  extract_sources "kb1-hr" cited_response
  = [ {[ "kb" := PyStr "kb1-hr"; "title" := PyStr "Employee_Handbook.pdf" ]} ].
Proof. vm_compute. reflexivity. Qed.

Example context_response_sources :
  extract_sources "kb2-marketing" context_response
  = [ {[ "kb" := PyStr "kb2-marketing"; "title" := PyNone;
         "filepath" := PyStr "marketing/playbook.md" ]} ].
Proof. vm_compute. reflexivity. Qed.

End Citations.

(** ** The dispatcher: shape of the extracted entries *)

Module Entries.
Import Orchestrator Citations Samples.

Lemma candidate_init kb : candidate kb {[ "kb" := PyStr kb ]}.
Proof.
  split; [by rewrite lookup_singleton_eq|].
  intros key [v H]. apply lookup_singleton_Some in H as [<- _]. by left.
Qed.

Lemma kb_not_metadata : "kb" ∉ metadata_keys.
Proof. apply (bool_decide_unpack _). vm_compute. exact I. Qed.

Lemma candidate_insert kb si key v :
  key ∈ metadata_keys → candidate kb si → candidate kb (<[key := v]> si).
Proof.
  intros Hkey [Hkb Hdom]. split.
  - rewrite lookup_insert_ne; [done|].
    intros ->. by apply kb_not_metadata.
  - intros k [w H]. apply lookup_insert_Some in H as [[<- _]|[_ H]]; [by right|].
    apply Hdom. by exists w.
Qed.

Lemma candidate_set_if_truthy kb obj attr key si :
  key ∈ metadata_keys → candidate kb si →
  candidate kb (set_if_truthy obj attr key si).
Proof.
  intros Hkey Hsi. unfold set_if_truthy.
  destruct (obj !! attr) as [v|]; [|done].
  destruct (truthy v); [by apply candidate_insert|done].
Qed.

Lemma candidate_set_if_has kb obj attr key si :
  key ∈ metadata_keys → candidate kb si →
  candidate kb (set_if_has obj attr key si).
Proof.
  intros Hkey Hsi. unfold set_if_has.
  destruct (obj !! attr) as [v|]; [by apply candidate_insert|done].
Qed.

Local Ltac metadata_key := unfold metadata_keys; set_solver.

Lemma candidate_citation_info kb c : candidate kb (citation_info kb c).
Proof.
  unfold citation_info.
  repeat (apply candidate_set_if_truthy; [metadata_key|]).
  apply candidate_init.
Qed.

Lemma candidate_context_info kb c : candidate kb (context_info kb c).
Proof.
  unfold context_info.
  repeat (apply candidate_set_if_has; [metadata_key|]).
  apply candidate_init.
Qed.

Lemma candidate_grounding_info kb c : candidate kb (grounding_info kb c).
Proof.
  unfold grounding_info.
  repeat (apply candidate_set_if_has; [metadata_key|]).
  apply candidate_init.
Qed.

(** A candidate without any metadata field is the bare [{kb}] entry. *)
Lemma candidate_bare kb si :
  candidate kb si →
  (∀ key, key ∈ metadata_keys → si !! key = None) →
  si = {[ "kb" := PyStr kb ]}.
Proof.
  intros [Hkb Hdom] Hnone. apply map_eq. intros k.
  destruct (decide (k = "kb")) as [->|Hk].
  - by rewrite lookup_singleton_eq.
  - rewrite lookup_singleton_ne by done.
    destruct (si !! k) as [v|] eqn:Hv; [|done].
    destruct (Hdom k) as [->|Hin]; [by exists v|done|].
    by rewrite (Hnone k Hin) in Hv.
Qed.

(** A candidate with more than one key has a metadata field. *)
Lemma candidate_more kb si :
  candidate kb si → 1 < size si →
  ∃ key, key ∈ metadata_keys ∧ is_Some (si !! key).
Proof.
  intros Hsi Hsize.
  destruct (si !! "title") as [v|] eqn:H1.
  { exists "title". split; [metadata_key|by exists v]. }
  destruct (si !! "filepath") as [v|] eqn:H2.
  { exists "filepath". split; [metadata_key|by exists v]. }
  destruct (si !! "url") as [v|] eqn:H3.
  { exists "url". split; [metadata_key|by exists v]. }
  destruct (si !! "chunk_id") as [v|] eqn:H4.
  { exists "chunk_id". split; [metadata_key|by exists v]. }
  exfalso.
  rewrite (candidate_bare kb si Hsi), map_size_singleton in Hsize; [lia|].
  intros key Hkey. unfold metadata_keys in Hkey.
  repeat (apply elem_of_cons in Hkey as [->|Hkey]); try done.
  by apply elem_of_nil in Hkey.
Qed.

Lemma references_candidate info kb r name e :
  (∀ x, candidate kb (info x)) →
  e ∈ references info r name → candidate kb e ∧ 1 < size e.
Proof.
  intros Hinfo. unfold references.
  intros [Hsize Hin]%list_elem_of_filter.
  apply list_elem_of_fmap in Hin as (x & -> & _). eauto.
Qed.

Lemma first_nonempty_elem (e : pyobj) ls :
  e ∈ first_nonempty ls → ∃ l, l ∈ ls ∧ e ∈ l.
Proof.
  induction ls as [|l ls IH]; simpl; [by intros ?%elem_of_nil|].
  destruct (is_empty l).
  - intros (l' & Hl' & He)%IH. exists l'. split; [by right|done].
  - intros He. exists l. split; [by left|done].
Qed.

Lemma extract_sources_candidate kb r e :
  e ∈ extract_sources kb r → candidate kb e ∧ 1 < size e.
Proof.
  rewrite extract_sources_first.
  intros (l & Hl & He)%first_nonempty_elem.
  repeat (apply elem_of_cons in Hl as [->|Hl]);
    [ apply (references_candidate _ kb) in He; auto using candidate_citation_info
    | apply (references_candidate _ kb) in He; auto using candidate_context_info
    | apply (references_candidate _ kb) in He; auto using candidate_grounding_info
    | by apply elem_of_nil in Hl ].
Qed.

(** C10: every entry that citation extraction emits binds [kb] to the
    knowledge base and carries at least one of the fields title, filepath,
    url, chunk_id, so it is never the bare [{kb}] entry; and a candidate
    built from an item that carries none of these fields is not appended to
    the sources. *)
Theorem extracted_entry_has_metadata (kb : string) (r : AgentRunResponse)
    (e : pyobj) :
  e ∈ extract_sources kb r →
  e !! "kb" = Some (PyStr kb)
  ∧ (∃ key, key ∈ metadata_keys ∧ is_Some (e !! key))
  ∧ e ≠ {[ "kb" := PyStr kb ]}
  ∧ (∀ info x sources,
       info ∈ [citation_info kb; context_info kb; grounding_info kb] →
       (∀ key, key ∈ metadata_keys → info x !! key = None) →
       append_if_more sources (info x) = sources).
Proof.
  intros [Hc Hsize]%extract_sources_candidate.
  split; [apply Hc|].
  split; [by apply (candidate_more kb)|].
  split.
  { intros ->. rewrite map_size_singleton in Hsize. lia. }
  intros info x sources Hinfo Hnone.
  assert (candidate kb (info x)) as Hx.
  { repeat (apply elem_of_cons in Hinfo as [->|Hinfo]);
      auto using candidate_citation_info, candidate_context_info,
        candidate_grounding_info.
    by apply elem_of_nil in Hinfo. }
  unfold append_if_more.
  rewrite (candidate_bare kb _ Hx Hnone), map_size_singleton.
  by rewrite bool_decide_eq_false_2 by lia.
Qed.

Lemma extracted_entry_has_metadata_witness :
  {[ "kb" := PyStr "kb1-hr"; "title" := PyStr "Employee_Handbook.pdf" ]}
    ∈ extract_sources "kb1-hr" cited_response
  ∧ ∃ key, key ∈ metadata_keys
      ∧ is_Some (({[ "kb" := PyStr "kb1-hr";
                     "title" := PyStr "Employee_Handbook.pdf" ]} : pyobj) !! key).
Proof.
  assert ({[ "kb" := PyStr "kb1-hr"; "title" := PyStr "Employee_Handbook.pdf" ]}
            ∈ extract_sources "kb1-hr" cited_response) as H.
  { apply (bool_decide_unpack _). vm_compute. exact I. }
  split; [exact H|].
  exact (proj1 (proj2 (extracted_entry_has_metadata _ _ _ H))).
Defined.

End Entries.

(** ** The dispatcher: bindings, lookups and default sources *)

Module Dispatch.
Import Orchestrator Router.

Local Ltac category_cases H :=
  unfold categories in H;
  repeat (apply elem_of_cons in H as [->|H]);
  [ | | | by apply elem_of_nil in H ].

(** The run of [run_single_query], call by call. *)
Lemma run_single_query_cases query svc log :
  run_single_query query svc log =
  match enter svc with
  | Some e => (Raise e, log)
  | None =>
      match run svc log router query with
      | Raise e => (Raise e, log ++ [(router, query)])
      | Ok reply =>
          let route := normalize_routing (text reply) in
          match specialists !! route with
          | None => (Raise (KeyError route), log ++ [(router, query)])
          | Some agent =>
              match run svc (log ++ [(router, query)]) agent query with
              | Raise e =>
                  (Raise e, (log ++ [(router, query)]) ++ [(agent, query)])
              | Ok response =>
                  (Ok (route, text response,
                       or_default route (kb_name_of route)
                         (extract_sources (kb_name_of route) response)),
                   (log ++ [(router, query)]) ++ [(agent, query)])
              end
          end
      end
  end.
Proof.
  unfold run_single_query, route_query, enter_contexts, agent_run, getitem,
    mbind, M_bind, mret, M_ret, raise.
  destruct (enter svc); [done|].
  destruct (run svc log router query) as [reply|e]; [|done].
  destruct (specialists !! normalize_routing (text reply)) as [agent|]; [|done].
  by destruct (run svc (log ++ [(router, query)]) agent query).
Qed.

(** The specialist and the knowledge base of a category. *)
Lemma category_bindings route :
  route ∈ categories →
  ∃ kb ins,
    kb_map !! route = Some kb
    ∧ specialists !! route
      = Some {| context_provider := Some kb; instructions := ins |}
    ∧ kb ∈ ["kb1-hr"; "kb2-marketing"; "kb3-products"]
    ∧ default_docs kb !! route = Some (fixed_defaults route)
    ∧ fixed_defaults route ≠ [].
Proof.
  intros H. category_cases H.
  - exists "kb1-hr", HR_INSTRUCTIONS. repeat split; try done. set_solver.
  - exists "kb2-marketing", MARKETING_INSTRUCTIONS. repeat split; try done. set_solver.
  - exists "kb3-products", PRODUCTS_INSTRUCTIONS. repeat split; try done. set_solver.
Qed.

Lemma routed_bindings text :
  ∃ kb ins,
    kb_map !! normalize_routing text = Some kb
    ∧ specialists !! normalize_routing text
      = Some {| context_provider := Some kb; instructions := ins |}
    ∧ kb ∈ ["kb1-hr"; "kb2-marketing"; "kb3-products"]
    ∧ default_docs kb !! normalize_routing text
      = Some (fixed_defaults (normalize_routing text))
    ∧ fixed_defaults (normalize_routing text) ≠ [].
Proof. apply category_bindings, normalize_routing_category. Qed.

Lemma kb_map_lookup route kb :
  kb_map !! route = Some kb →
  (route = "hr" ∧ kb = "kb1-hr")
  ∨ (route = "marketing" ∧ kb = "kb2-marketing")
  ∨ (route = "products" ∧ kb = "kb3-products").
Proof.
  unfold kb_map. rewrite !lookup_insert_Some, lookup_singleton_Some.
  intros [[<- <-]|[_ [[<- <-]|[_ [<- <-]]]]]; auto.
Qed.


(** A successful run: the route is the classification of the router's
    reply, and the second call went to the specialist of the route. *)
Lemma run_single_query_ok query svc log route txt srcs log' :
  run_single_query query svc log = (Ok (route, txt, srcs), log') →
  ∃ reply agent response,
    enter svc = None
    ∧ run svc log router query = Ok reply
    ∧ route = normalize_routing (text reply)
    ∧ specialists !! route = Some agent
    ∧ run svc (log ++ [(router, query)]) agent query = Ok response
    ∧ txt = text response
    ∧ srcs = or_default route (kb_name_of route)
               (extract_sources (kb_name_of route) response)
    ∧ log' = log ++ [(router, query); (agent, query)].
Proof.
  rewrite run_single_query_cases.
  destruct (enter svc); [done|].
  destruct (run svc log router query) as [reply|e] eqn:Hr; [|done]. simpl.
  destruct (specialists !! normalize_routing (text reply)) as [agent|] eqn:Ha;
    [|done].
  destruct (run svc (log ++ [(router, query)]) agent query) as [response|e]
    eqn:Hs; [|done].
  intros [= <- <- <- <-]. exists reply, agent, response.
  by rewrite <- app_assoc.
Qed.

(** A failed run: the exception is the one the service raised on entering
    the contexts or on the last call logged. *)
Lemma run_single_query_raise query svc log e log' :
  run_single_query query svc log = (Raise e, log') →
  (enter svc = Some e ∧ log' = log)
  ∨ (enter svc = None ∧ run svc log router query = Raise e
     ∧ log' = log ++ [(router, query)])
  ∨ (∃ reply agent,
       enter svc = None
       ∧ run svc log router query = Ok reply
       ∧ specialists !! normalize_routing (text reply) = Some agent
       ∧ run svc (log ++ [(router, query)]) agent query = Raise e
       ∧ log' = log ++ [(router, query); (agent, query)]).
Proof.
  rewrite run_single_query_cases.
  destruct (enter svc) as [e0|]; [intros [= <- <-]; by left|].
  destruct (run svc log router query) as [reply|e0] eqn:Hr;
    [|intros [= <- <-]; right; by left]. simpl.
  destruct (specialists !! normalize_routing (text reply)) as [agent|] eqn:Ha.
  - destruct (run svc _ agent query) as [response|e0] eqn:Hs; [done|].
    intros [= <- <-]. right; right. exists reply, agent.
    by rewrite <- app_assoc.
  - destruct (routed_bindings (text reply)) as (kb & ins & _ & Hsome & _).
    by rewrite Hsome in Ha.
Qed.



(** C8: the classification of every text is a key of [specialists], of
    [kb_map] and of [default_docs]: the knowledge base name is never
    "unknown", the default sources are those of the dictionary and not the
    "Knowledge Base" entry, and every exception of [run_single_query] is
    one the external service raised, never a failed lookup. *)
Theorem routed_lookups_never_fail :
  (∀ text, ∃ agent kb,
      specialists !! normalize_routing text = Some agent
      ∧ kb_map !! normalize_routing text = Some kb
      ∧ kb_name_of (normalize_routing text) = kb
      ∧ kb ≠ "unknown"
      ∧ default_docs kb !! normalize_routing text
        = Some (fixed_defaults (normalize_routing text))
      ∧ or_default (normalize_routing text) kb []
        = fixed_defaults (normalize_routing text)
      ∧ or_default (normalize_routing text) kb []
        ≠ [doc kb "Knowledge Base" kb])
  ∧ (∀ query svc log e log',
       run_single_query query svc log = (Raise e, log') →
       enter svc = Some e ∨ ∃ l agent, run svc l agent query = Raise e).
Proof.
  split.
  - intros text.
    destruct (routed_bindings text) as (kb & ins & Hkb & Hs & Hin & Hd & Hne).
    eexists _, kb. split; [exact Hs|]. split; [exact Hkb|].
    split; [unfold kb_name_of; by rewrite Hkb|].
    split.
    { intros ->. repeat (apply elem_of_cons in Hin as [?|Hin]); try done.
      by apply elem_of_nil in Hin. }
    split; [exact Hd|].
    assert (or_default (normalize_routing text) kb []
            = fixed_defaults (normalize_routing text)) as Ho.
    { unfold or_default. simpl. by rewrite Hd. }
    split; [exact Ho|]. rewrite Ho.
    pose proof (normalize_routing_category text) as Hc.
    revert Hkb. generalize (normalize_routing text) Hc. clear.
    intros route Hc Hkb. category_cases Hc;
      apply kb_map_lookup in Hkb as [[? ->]|[[? ->]|[? ->]]]; try done.
  - intros query svc log e log' H.
    apply run_single_query_raise in H
      as [[H _]|[(_ & H & _)|(reply & agent & _ & _ & _ & H & _)]]; eauto.
Qed.

End Dispatch.

(** ** The HTTP layer *)

Module Http.
Import Orchestrator Router Dispatch Main Samples.


Lemma chat_raise request svc log e log' :
  run_single_query (ChatRequest.message request) svc log = (Raise e, log') →
  chat request svc log = (HTTPException 500 (exn_str e), log').
Proof. intros H. unfold chat. by rewrite H. Qed.

Lemma chat_returned request svc log resp log' :
  chat request svc log = (Returned resp, log') →
  ∃ route txt srcs,
    run_single_query (ChatRequest.message request) svc log
    = (Ok (route, txt, srcs), log')
    ∧ resp = {| ChatResponse.message := txt;
                ChatResponse.agent := route +:+ "-agent";
                ChatResponse.sources := srcs |}.
Proof.
  unfold chat.
  destruct (run_single_query _ svc log) as [[[[route txt] srcs]|e] l]; [|done].
  intros [= <- <-]. by exists route, txt, srcs.
Qed.

(** C6: when the dispatch of a request raises, the handler answers with
    status 500 and the text of that exception as detail, so with no
    response model; the exception is the one the service raised on
    entering the contexts or on the last call of the log, and no call
    follows it. *)
Theorem dispatch_error_is_500 request svc log e log' :
  run_single_query (ChatRequest.message request) svc log = (Raise e, log') →
  chat request svc log = (HTTPException 500 (exn_str e), log')
  ∧ (∀ resp l, chat request svc log ≠ (Returned resp, l))
  ∧ ((enter svc = Some e ∧ log' = log)
     ∨ (run svc log router (ChatRequest.message request) = Raise e
        ∧ log' = log ++ [(router, ChatRequest.message request)])
     ∨ (∃ agent,
          run svc (log ++ [(router, ChatRequest.message request)]) agent
            (ChatRequest.message request) = Raise e
          ∧ log' = log ++ [(router, ChatRequest.message request);
                           (agent, ChatRequest.message request)])).
Proof.
  intros H. pose proof (chat_raise _ _ _ _ _ H) as Hc.
  split; [exact Hc|]. split; [intros resp l; by rewrite Hc|].
  apply run_single_query_raise in H
    as [[H ->]|[(_ & H & ->)|(reply & agent & _ & _ & _ & H & ->)]]; eauto.
Qed.

Lemma dispatch_error_is_500_witness :
  chat pto_request failing_service []
  = (HTTPException 500 "upstream timeout",
     [ (router, "How many PTO days do I have?");
       ({| context_provider := Some "kb3-products";
           instructions := PRODUCTS_INSTRUCTIONS |},
        "How many PTO days do I have?") ]).
Proof.
  refine (proj1 (dispatch_error_is_500 pto_request failing_service []
                   (ServiceError "upstream timeout") _ _)).
  vm_compute. reflexivity.
Defined.







End Http.

(** * Further properties *)

(** ** The router: exact routes, case and padding *)

Module RouterMore.
Import PyStr PyStrFacts Orchestrator Router.

Lemma occurs_ci_dec (kw text : string) :
  {occurs_ci kw text} + {¬ occurs_ci kw text}.
Proof.
  destruct (contains kw (lower text)) eqn:H.
  - left. by apply contains_lower_ci.
  - right. intros Ho%contains_lower_ci. congruence.
Qed.

(** X1: the texts of ASCII characters of each route, exactly. *)
Theorem route_characterisation (text : string) :
  is_ascii text = true →
  (normalize_routing text = "products"
   ↔ ¬ occurs_ci "hr" text ∧ ¬ occurs_ci "marketing" text
     ∧ ¬ occurs_ci "brand" text ∧ ¬ occurs_ci "campaign" text
     ∧ occurs_ci "product" text)
  ∧ (normalize_routing text = "marketing"
     ↔ ¬ occurs_ci "hr" text
       ∧ (occurs_ci "marketing" text ∨ occurs_ci "brand" text
          ∨ occurs_ci "campaign" text))
  ∧ (normalize_routing text = "hr"
     ↔ occurs_ci "hr" text
       ∨ (¬ occurs_ci "marketing" text ∧ ¬ occurs_ci "brand" text
          ∧ ¬ occurs_ci "campaign" text ∧ ¬ occurs_ci "product" text)).
Proof.
  intros _.
  destruct (occurs_ci_dec "hr" text) as [Hh|Hh].
  { rewrite (normalize_routing_hr text Hh). repeat split; try done; tauto. }
  destruct (occurs_ci_dec "marketing" text) as [Hm|Hm].
  { rewrite (normalize_routing_marketing text Hh) by tauto.
    repeat split; try done; tauto. }
  destruct (occurs_ci_dec "brand" text) as [Hb|Hb].
  { rewrite (normalize_routing_marketing text Hh) by tauto.
    repeat split; try done; tauto. }
  destruct (occurs_ci_dec "campaign" text) as [Hc|Hc].
  { rewrite (normalize_routing_marketing text Hh) by tauto.
    repeat split; try done; tauto. }
  destruct (occurs_ci_dec "product" text) as [Hp|Hp].
  { rewrite (normalize_routing_products text Hh Hm Hb Hc Hp).
    repeat split; try done; tauto. }
  rewrite normalize_routing_default.
  - repeat split; try done; tauto.
  - intros kw Hkw. unfold keywords in Hkw.
    repeat (apply elem_of_cons in Hkw as [->|Hkw]); try done.
    by apply elem_of_nil in Hkw.
Qed.

Lemma route_characterisation_witness :
  normalize_routing "What are the PRODUCT specs?" = "products"
  ↔ ¬ occurs_ci "hr" "What are the PRODUCT specs?"
    ∧ ¬ occurs_ci "marketing" "What are the PRODUCT specs?"
    ∧ ¬ occurs_ci "brand" "What are the PRODUCT specs?"
    ∧ ¬ occurs_ci "campaign" "What are the PRODUCT specs?"
    ∧ occurs_ci "product" "What are the PRODUCT specs?".
Proof.
  exact (proj1 (route_characterisation "What are the PRODUCT specs?" eq_refl)).
Defined.

(** X2: a reply that is the name of a category, in any case of the letters
    and with white space around it, is routed to that category. *)
Theorem category_name_routes_to_itself (text c : string) :
  c ∈ categories → lower (strip text) = c → normalize_routing text = c.
Proof.
  intros Hc H. unfold normalize_routing. rewrite H. unfold categories in Hc.
  repeat (apply elem_of_cons in Hc as [->|Hc]); try reflexivity.
  by apply elem_of_nil in Hc.
Qed.

Lemma category_name_routes_to_itself_witness :
  normalize_routing "  Marketing " = "marketing".
Proof.
  apply (category_name_routes_to_itself "  Marketing " "marketing").
  - unfold categories. apply (bool_decide_unpack _). vm_compute. exact I.
  - reflexivity.
Defined.

Lemma lower_char_idem c : lower_char (lower_char c) = lower_char c.
Proof. by destruct c as [[] [] [] [] [] [] [] []]. Qed.

Lemma lower_idem s : lower (lower s) = lower s.
Proof.
  induction s as [|c s IH]; [done|]. simpl. by rewrite lower_char_idem, IH.
Qed.

Lemma lower_upper_char c : lower_char (upper_char c) = lower_char c.
Proof. by destruct c as [[] [] [] [] [] [] [] []]. Qed.

Lemma lower_upper s : lower (upper s) = lower s.
Proof.
  induction s as [|c s IH]; [done|]. simpl. by rewrite lower_upper_char, IH.
Qed.

Lemma all_space_lower s : all_space (lower s) = all_space s.
Proof.
  induction s as [|c s IH]; [done|]. simpl.
  by rewrite isspace_lower_char, IH.
Qed.

Lemma lstrip_app_space (pre s : string) :
  all_space pre = true → lstrip (pre +:+ s) = lstrip s.
Proof.
  induction pre as [|c pre IH]; [done|]. cbn [all_space].
  intros [Hc Hp]%andb_prop. rewrite app_cons. cbn [lstrip]. rewrite Hc. auto.
Qed.

Lemma rstrip_app_space (s suf : string) :
  all_space suf = true → rstrip (s +:+ suf) = rstrip s.
Proof.
  intros Hs. induction s as [|c s IH].
  - rewrite app_nil_l. by apply rstrip_all_space.
  - rewrite app_cons. cbn [rstrip]. by rewrite IH.
Qed.

Lemma contains_padding (w pre s suf : string) :
  head_nonspace w = true → last_nonspace w = true →
  all_space pre = true → all_space suf = true →
  contains w (pre +:+ s +:+ suf) = contains w s.
Proof.
  intros Hh Hl Hp Hs.
  rewrite <- (contains_lstrip w (pre +:+ s +:+ suf)) by done.
  rewrite lstrip_app_space by done.
  rewrite contains_lstrip by done.
  rewrite <- (contains_rstrip w (s +:+ suf)) by done.
  rewrite rstrip_app_space by done.
  by rewrite contains_rstrip.
Qed.

Lemma classify_spec_ext (a b : string) :
  (∀ kw, kw ∈ keywords → contains kw (lower a) = contains kw (lower b)) →
  classify_spec a = classify_spec b.
Proof.
  intros H. unfold classify_spec.
  rewrite !(H _) by (unfold keywords; apply (bool_decide_unpack _);
                     vm_compute; exact I).
  done.
Qed.

(** X3: the route of a text of ASCII characters does not change when ASCII
    white space is put around the text, nor when the text is lower-cased or
    upper-cased. *)
Theorem routing_ignores_case_and_padding (pre text suf : string) :
  is_ascii text = true →
  all_space pre = true → all_space suf = true →
  normalize_routing (pre +:+ text +:+ suf) = normalize_routing text
  ∧ normalize_routing (lower text) = normalize_routing text
  ∧ normalize_routing (upper text) = normalize_routing text.
Proof.
  intros _ Hp Hs. rewrite !normalize_routing_spec. repeat split.
  - apply classify_spec_ext. intros kw Hkw. rewrite !lower_app.
    unfold keywords in Hkw.
    repeat (apply elem_of_cons in Hkw as [->|Hkw]);
      [ | | | | | by apply elem_of_nil in Hkw ];
      apply contains_padding; by rewrite ?all_space_lower.
  - apply classify_spec_ext. intros kw _. by rewrite lower_idem.
  - apply classify_spec_ext. intros kw _. by rewrite lower_upper.
Qed.

Lemma routing_ignores_case_and_padding_witness :
  normalize_routing ("  " +:+ "Our Brand" +:+ " ") = normalize_routing "Our Brand".
Proof.
  exact (proj1 (routing_ignores_case_and_padding "  " "Our Brand" " "
                  eq_refl eq_refl eq_refl)).
Defined.

End RouterMore.

(** ** Citation extraction: the fields of an entry, order and length *)

Module CitationsMore.
Import Orchestrator Citations Entries Samples.

Lemma set_if_truthy_lookup obj attr key (si : pyobj) k :
  set_if_truthy obj attr key si !! k
  = if decide (key = k)
    then match obj !! attr with
         | Some v => if truthy v then Some v else si !! k
         | None => si !! k
         end
    else si !! k.
Proof.
  unfold set_if_truthy.
  destruct (obj !! attr) as [v|]; [destruct (truthy v)|];
    rewrite ?lookup_insert; by repeat case_decide.
Qed.

Lemma set_if_has_lookup obj attr key (si : pyobj) k :
  set_if_has obj attr key si !! k
  = if decide (key = k)
    then match obj !! attr with Some v => Some v | None => si !! k end
    else si !! k.
Proof.
  unfold set_if_has.
  destruct (obj !! attr) as [v|]; rewrite ?lookup_insert; by repeat case_decide.
Qed.

Lemma two_keys_size (m : pyobj) a b x y :
  m !! a = Some x → m !! b = Some y → a ≠ b → 1 < size m.
Proof.
  intros Ha Hb Hab.
  assert (size (delete a m) ≠ 0) as Hd.
  { apply (map_size_ne_0_lookup_2 _ b). rewrite lookup_delete_ne by done. eauto. }
  rewrite map_size_delete_Some in Hd by eauto. lia.
Qed.

Lemma metadata_key_cases key :
  key ∈ metadata_keys →
  key = "title" ∨ key = "filepath" ∨ key = "url" ∨ key = "chunk_id".
Proof.
  unfold metadata_keys. intros H.
  repeat (apply elem_of_cons in H as [->|H]); auto.
  by apply elem_of_nil in H.
Qed.

Ltac decide_keys :=
  repeat match goal with
    | |- context [decide (?a = ?b)] =>
        let Heq := fresh in
        destruct (decide (a = b)) as [Heq|Heq];
        [ try discriminate Heq | try (exfalso; apply Heq; reflexivity) ]
    end.

Lemma citation_info_lookup kb c key v :
  key ∈ metadata_keys →
  citation_info kb c !! key = Some v ↔ c !! key = Some v ∧ truthy v = true.
Proof.
  intros Hkey. unfold citation_info.
  rewrite !set_if_truthy_lookup.
  destruct (metadata_key_cases key Hkey) as [-> | [-> | [-> | ->]]];
    decide_keys;
    rewrite lookup_singleton_ne by done;
    match goal with
    | |- context [c !! ?k] =>
        destruct (c !! k) as [w|]; [destruct (truthy w) eqn:Hw|]
    end; intuition congruence.
Qed.

(** X4: the entry built from a citation holds, of title, filepath, url and
    chunk_id, exactly the attributes of the citation whose value is true in
    the sense of Python, with that value; the citation is kept when there is
    such an attribute, and only then. *)
Theorem citation_entry (kb : string) (c : pyobj) :
  (∀ key v, key ∈ metadata_keys →
     (citation_info kb c !! key = Some v
      ↔ c !! key = Some v ∧ truthy v = true))
  ∧ (1 < size (citation_info kb c)
     ↔ ∃ key v, key ∈ metadata_keys ∧ c !! key = Some v ∧ truthy v = true)
  ∧ (∀ sources,
       (∀ key v, key ∈ metadata_keys → c !! key = Some v → truthy v = false) →
       append_if_more sources (citation_info kb c) = sources).
Proof.
  split; [intros key v; apply citation_info_lookup|].
  assert (1 < size (citation_info kb c)
          ↔ ∃ key v, key ∈ metadata_keys ∧ c !! key = Some v ∧ truthy v = true)
    as Hsize.
  { split.
    - intros Hs.
      destruct (candidate_more kb _ (candidate_citation_info kb c) Hs)
        as (key & Hkey & v & Hv).
      exists key, v. split; [done|]. by apply citation_info_lookup in Hv.
    - intros (key & v & Hkey & Hv & Ht).
      apply (two_keys_size _ "kb" key (PyStr kb) v).
      + apply candidate_citation_info.
      + by apply citation_info_lookup.
      + intros <-. by apply kb_not_metadata. }
  split; [exact Hsize|].
  intros sources Hnone. unfold append_if_more.
  rewrite bool_decide_eq_false_2; [done|].
  intros (key & v & Hkey & Hv & Ht)%Hsize.
  rewrite (Hnone key v Hkey Hv) in Ht. done.
Qed.

(** X5: the entry built from a context item has the title of the item and,
    as filepath, its source; the entry built from a grounding item has its
    title and its filepath; neither ever has a url or a chunk_id, and the
    values are taken as they are, [None] included. The item is kept when it
    has one of its two attributes, and only then. *)
Theorem context_and_grounding_entry (kb : string) (x : pyobj) :
  (context_info kb x !! "title" = x !! "title"
   ∧ context_info kb x !! "filepath" = x !! "source"
   ∧ context_info kb x !! "url" = None
   ∧ context_info kb x !! "chunk_id" = None
   ∧ (1 < size (context_info kb x)
      ↔ is_Some (x !! "title") ∨ is_Some (x !! "source")))
  ∧ (grounding_info kb x !! "title" = x !! "title"
     ∧ grounding_info kb x !! "filepath" = x !! "filepath"
     ∧ grounding_info kb x !! "url" = None
     ∧ grounding_info kb x !! "chunk_id" = None
     ∧ (1 < size (grounding_info kb x)
        ↔ is_Some (x !! "title") ∨ is_Some (x !! "filepath"))).
Proof.
  assert (∀ a, let e := set_if_has x a "filepath"
                          (set_if_has x "title" "title" {[ "kb" := PyStr kb ]}) in
               candidate kb e
               ∧ e !! "title" = x !! "title"
               ∧ e !! "filepath" = x !! a
               ∧ e !! "url" = None
               ∧ e !! "chunk_id" = None) as H.
  { intros a e. split.
    { subst e. repeat (apply candidate_set_if_has; [unfold metadata_keys;
        apply (bool_decide_unpack _); vm_compute; exact I|]).
      apply candidate_init. }
    subst e. rewrite !set_if_has_lookup.
    repeat split; decide_keys;
      rewrite lookup_singleton_ne by done;
      by repeat case_match. }
  assert (∀ a, let e := set_if_has x a "filepath"
                          (set_if_has x "title" "title" {[ "kb" := PyStr kb ]}) in
               1 < size e ↔ is_Some (x !! "title") ∨ is_Some (x !! a)) as Hs.
  { intros a e. destruct (H a) as (Hc & Ht & Hf & Hu & Hi). fold e in Hc, Ht, Hf, Hu, Hi.
    split.
    - intros Hsize.
      destruct (candidate_more kb e Hc Hsize) as (key & Hkey & Hsome).
      destruct (metadata_key_cases key Hkey) as [-> | [-> | [-> | ->]]].
      + left. by rewrite <- Ht.
      + right. by rewrite <- Hf.
      + rewrite Hu in Hsome. by destruct Hsome.
      + rewrite Hi in Hsome. by destruct Hsome.
    - intros [[v Hv]|[v Hv]].
      + apply (two_keys_size e "kb" "title" (PyStr kb) v); [apply Hc| |done].
        by rewrite Ht.
      + apply (two_keys_size e "kb" "filepath" (PyStr kb) v); [apply Hc| |done].
        by rewrite Hf. }
  split.
  - destruct (H "source") as (_ & Ht & Hf & Hu & Hi).
    repeat (split; [assumption|]). apply (Hs "source").
  - destruct (H "filepath") as (_ & Ht & Hf & Hu & Hi).
    repeat (split; [assumption|]). apply (Hs "filepath").
Qed.

Lemma first_nonempty_choice ls :
  first_nonempty ls = [] ∨ first_nonempty ls ∈ ls.
Proof.
  induction ls as [|l ls IH]; [by left|]. simpl.
  destruct l as [|x l]; simpl.
  - destruct IH as [IH|IH]; [by left|right; by right].
  - right. by left.
Qed.

(** X6: the extracted sources are built from the items of one of the three
    attributes, in the order of the items and at most one per item. *)
Theorem extracted_sources_sublist (kb : string) (r : AgentRunResponse) :
  ∃ info name,
    (info, name) ∈ [ (citation_info kb, "citations");
                     (context_info kb, "context");
                     (grounding_info kb, "grounding_data") ]
    ∧ extract_sources kb r `sublist_of` (info <$> iter_attr r name)
    ∧ length (extract_sources kb r) ≤ length (iter_attr r name).
Proof.
  assert (∀ info name,
            references info r name `sublist_of` (info <$> iter_attr r name)
            ∧ length (references info r name) ≤ length (iter_attr r name)) as H.
  { intros info name. unfold references.
    pose proof (sublist_filter (λ si : pyobj, 1 < size si)
                  (info <$> iter_attr r name)) as Hsub.
    split; [exact Hsub|].
    apply sublist_length in Hsub. by rewrite length_fmap in Hsub. }
  rewrite extract_sources_first.
  destruct (first_nonempty_choice
              [ references (citation_info kb) r "citations";
                references (context_info kb) r "context";
                references (grounding_info kb) r "grounding_data" ])
    as [->|Hin].
  - exists (citation_info kb), "citations".
    split; [by left|]. split; [apply sublist_nil_l|simpl; lia].
  - repeat (apply elem_of_cons in Hin as [->|Hin]).
    + exists (citation_info kb), "citations". split; [by left|apply H].
    + exists (context_info kb), "context".
      split; [right; by left|apply H].
    + exists (grounding_info kb), "grounding_data".
      split; [right; right; by left|apply H].
    + by apply elem_of_nil in Hin.
Qed.

End CitationsMore.

(** ** The dispatcher: the sources of a successful run *)

Module DispatchMore.
Import Orchestrator Router Citations Entries Dispatch Samples.

Lemma fixed_defaults_entries route kb e :
  kb_map !! route = Some kb → e ∈ fixed_defaults route →
  e !! "kb" = Some (PyStr kb) ∧ 1 < size e.
Proof.
  intros Hkb He.
  apply kb_map_lookup in Hkb as [[-> ->]|[[-> ->]|[-> ->]]];
    unfold fixed_defaults in He; simpl in He;
    repeat (apply elem_of_cons in He as [->|He]);
    try (by apply elem_of_nil in He);
    (split; [reflexivity|vm_compute; lia]).
Qed.

(** The sources after the default step, for the knowledge source of the
    route. *)
Lemma or_default_sources text response :
  let route := normalize_routing text in
  let srcs := or_default route (kb_name_of route)
                (extract_sources (kb_name_of route) response) in
  srcs ≠ []
  ∧ ∃ kb, kb_map !! route = Some kb
      ∧ ∀ e, e ∈ srcs → e !! "kb" = Some (PyStr kb) ∧ 1 < size e.
Proof.
  intros route srcs. subst route srcs.
  destruct (routed_bindings text) as (kb & ins & Hkb & _ & _ & Hd & Hne).
  assert (kb_name_of (normalize_routing text) = kb) as ->.
  { unfold kb_name_of. by rewrite Hkb. }
  unfold or_default.
  destruct (extract_sources kb response) as [|e0 l] eqn:He; simpl.
  - rewrite Hd. simpl. split; [exact Hne|].
    exists kb. split; [exact Hkb|].
    intros e. by apply fixed_defaults_entries.
  - split; [done|]. exists kb. split; [exact Hkb|].
    intros e Hin. rewrite <- He in Hin.
    apply extract_sources_candidate in Hin as [[Hk _] Hs]. done.
Qed.

(** X7: a successful run never returns an empty list of sources, and every
    source it returns, extracted or default, has more than the [kb] key and
    binds [kb] to the knowledge source of the route. *)
Theorem successful_run_sources query svc log route txt srcs log' :
  run_single_query query svc log = (Ok (route, txt, srcs), log') →
  srcs ≠ []
  ∧ ∃ kb, kb_map !! route = Some kb
      ∧ ∀ e, e ∈ srcs → e !! "kb" = Some (PyStr kb) ∧ 1 < size e.
Proof.
  intros H.
  apply run_single_query_ok in H
    as (reply & agent & response & _ & _ & -> & _ & _ & _ & -> & _).
  apply or_default_sources.
Qed.

Lemma successful_run_sources_witness :
  ∃ kb, kb_map !! "hr" = Some kb
    ∧ ∀ e, e ∈ fixed_defaults "hr" → e !! "kb" = Some (PyStr kb) ∧ 1 < size e.
Proof.
  refine (proj2 (successful_run_sources "How many PTO days do I have?"
                   plain_service [] "hr" (text plain_response)
                   (fixed_defaults "hr") _ _)).
  vm_compute. reflexivity.
Defined.

End DispatchMore.

(** ** The HTTP layer: the calls behind a request, and [GET /agents] *)

Module HttpMore.
Import Orchestrator Router Dispatch DispatchMore Main Agents Http Samples.

(** X8: whatever the message is, the empty one included, when the setup
    succeeds the handler first calls the routing agent with the message as it
    is, and makes at most one more call; the fields [session_id] and [agent]
    of the request change nothing. *)
Theorem chat_calls request svc log :
  enter svc = None →
  (∃ rest, snd (chat request svc log)
           = log ++ (router, ChatRequest.message request) :: rest
         ∧ length rest ≤ 1
         ∧ ∀ a m, (a, m) ∈ rest → m = ChatRequest.message request)
  ∧ ∀ request', ChatRequest.message request' = ChatRequest.message request →
                chat request' svc log = chat request svc log.
Proof.
  intros Henter. split.
  - unfold chat. rewrite run_single_query_cases, Henter.
    destruct (run svc log router (ChatRequest.message request)) as [reply|e].
    + cbv zeta.
      destruct (routed_bindings (text reply)) as (kb & ins & _ & -> & _).
      match goal with
      | |- context [run svc ?l ?a ?m] => destruct (run svc l a m) as [resp|e]
      end; simpl; rewrite <- app_assoc; simpl;
        (eexists; split; [reflexivity|]; split; [simpl; lia|]);
        intros a m [= -> ->]%list_elem_of_singleton; done.
    + simpl. exists []. split; [done|]. split; [simpl; lia|].
      intros a m Hin. by apply elem_of_nil in Hin.
  - intros request' Hm. unfold chat. by rewrite Hm.
Qed.

Lemma chat_calls_witness :
  ∃ rest, snd (chat {| ChatRequest.message := "";
                       ChatRequest.session_id := Some "s1";
                       ChatRequest.agent := Some "products" |}
                 plain_service [])
          = [] ++ (router, "") :: rest
        ∧ length rest ≤ 1
        ∧ ∀ a m, (a, m) ∈ rest → m = "".
Proof.
  exact (proj1 (chat_calls
                  {| ChatRequest.message := "";
                     ChatRequest.session_id := Some "s1";
                     ChatRequest.agent := Some "products" |}
                  plain_service [] eq_refl)).
Defined.

Lemma listed_agent_of_route route kb :
  kb_map !! route = Some kb →
  ∃ a, a ∈ list_agents ∧ AgentEntry.id a = route ∧ AgentEntry.kb a = Some kb.
Proof.
  intros H.
  apply kb_map_lookup in H as [[-> ->]|[[-> ->]|[-> ->]]];
    eexists (AgentEntry.Build_t _ _ _ _ _); unfold list_agents.
  - split; [right; by left|]. by split.
  - split; [right; right; by left|]. by split.
  - split; [right; right; right; by left|]. by split.
Qed.


(** X10: the agent field of a returned response is not the id of a listed
    agent; it is the id of a listed specialist followed by "-agent", and the
    knowledge source of that specialist is the [kb] of every source of the
    response. *)
Theorem response_agent_is_listed request svc log resp log' :
  chat request svc log = (Returned resp, log') →
  (∀ a, a ∈ list_agents → AgentEntry.id a ≠ ChatResponse.agent resp)
  ∧ ∃ a kb, a ∈ list_agents
      ∧ ChatResponse.agent resp = AgentEntry.id a +:+ "-agent"
      ∧ AgentEntry.kb a = Some kb
      ∧ ∀ e, e ∈ ChatResponse.sources resp → e !! "kb" = Some (PyStr kb).
Proof.
  intros (route & txt & srcs & Hrun & ->)%chat_returned. simpl.
  apply run_single_query_ok in Hrun
    as (reply & agent & response & _ & _ & -> & _ & _ & _ & -> & _).
  destruct (or_default_sources (text reply) response) as (_ & kb & Hkb & Hsrc).
  split.
  { intros a Ha. unfold list_agents in Ha.
    apply kb_map_lookup in Hkb as [[-> ->]|[[-> ->]|[-> ->]]];
      repeat (apply elem_of_cons in Ha as [->|Ha]);
      try (by apply elem_of_nil in Ha); simpl; discriminate. }
  destruct (listed_agent_of_route _ kb Hkb) as (a & Ha & Hid & Hakb).
  exists a, kb. rewrite Hid. repeat split; try done.
  intros e He. by apply Hsrc.
Qed.

Lemma response_agent_is_listed_witness :
  ∃ a kb, a ∈ list_agents
    ∧ "hr-agent" = AgentEntry.id a +:+ "-agent"
    ∧ AgentEntry.kb a = Some kb
    ∧ ∀ e, e ∈ fixed_defaults "hr" → e !! "kb" = Some (PyStr kb).
Proof.
  refine (proj2 (response_agent_is_listed pto_request plain_service []
                   {| ChatResponse.message := text plain_response;
                      ChatResponse.agent := "hr-agent";
                      ChatResponse.sources := fixed_defaults "hr" |} _ _)).
  vm_compute. reflexivity.
Defined.



End HttpMore.


(** ** The interactive loop *)

Module CliFacts.
Import PyStr PyStrFacts Orchestrator Router Dispatch Cli Sessions Samples.

Lemma lstrip_all_space s : all_space s = true → lstrip s = "".
Proof.
  induction s as [|c s IH]; [done|]. cbn [all_space lstrip].
  intros [-> Hs]%andb_prop. auto.
Qed.

Lemma strip_all_space s : all_space s = true → strip s = "".
Proof. intros H. unfold strip. by rewrite lstrip_all_space. Qed.

Lemma quit_not_blank s : strip s = "" → stops (Line s) = false.
Proof. intros H. simpl. by rewrite H. Qed.

(** One pass on a line, call by call. *)
Lemma loop_iteration_line svc s log :
  loop_iteration svc (Line s) log =
  if bool_decide (strip s = "") then (Continue, [Prompt], log)
  else if bool_decide (lower (strip s) ∈ quit_words)
  then (Break, [Prompt; Goodbye], log)
  else
    match run svc log router (strip s) with
    | Raise e =>
        (Continue, [Prompt; Error (exn_str e)], log ++ [(router, strip s)])
    | Ok reply =>
        match specialists !! normalize_routing (text reply) with
        | None =>
            (Continue,
             [Prompt; RoutingTo (upper (normalize_routing (text reply)));
              Error (exn_str (KeyError (normalize_routing (text reply))))],
             log ++ [(router, strip s)])
        | Some agent =>
            match run svc (log ++ [(router, strip s)]) agent (strip s) with
            | Raise e =>
                (Continue,
                 [Prompt; RoutingTo (upper (normalize_routing (text reply)));
                  Error (exn_str e)],
                 log ++ [(router, strip s); (agent, strip s)])
            | Ok response =>
                (Continue,
                 [Prompt; RoutingTo (upper (normalize_routing (text reply)));
                  Response (text response); Separator],
                 log ++ [(router, strip s); (agent, strip s)])
            end
        end
    end.
Proof.
  unfold loop_iteration. cbv zeta.
  repeat case_bool_decide; try done.
  unfold route_query, agent_run, getitem, mbind, M_bind, mret, M_ret, raise.
  destruct (run svc log router (strip s)) as [reply|e]; [|done].
  destruct (specialists !! normalize_routing (text reply)) as [agent|]; [|done].
  rewrite <- app_assoc. simpl.
  by destruct (run svc (log ++ [(router, strip s)]) agent (strip s)).
Qed.

Lemma upper_category route :
  route ∈ categories → upper route ∈ ["HR"; "MARKETING"; "PRODUCTS"].
Proof.
  unfold categories. intros H.
  repeat (apply elem_of_cons in H as [->|H]);
    try (by apply elem_of_nil in H);
    apply (bool_decide_unpack _); vm_compute; exact I.
Qed.

(** What one pass does, for every input and every service. *)
Lemma loop_iteration_facts svc ev log :
  ∃ st out calls,
    loop_iteration svc ev log = (st, out, log ++ calls)
    ∧ (st = Break ↔ stops ev = true)
    ∧ (stops ev = true → calls = [])
    ∧ length calls ≤ 2
    ∧ (∀ a m, (a, m) ∈ calls →
         ∃ s, ev = Line s ∧ m = strip s ∧ m ≠ ""
              ∧ lower m ∉ quit_words)
    ∧ (∀ name, RoutingTo name ∈ out →
               name ∈ ["HR"; "MARKETING"; "PRODUCTS"]).
Proof.
  destruct ev as [s| |e].
  - rewrite loop_iteration_line. cbn [stops].
    case_bool_decide as Hblank.
    { exists Continue, [Prompt], []. rewrite app_nil_r, Hblank.
      repeat split; try done; simpl; try lia.
      - intros a m H. by apply elem_of_nil in H.
      - intros name [=]%list_elem_of_singleton. }
    case_bool_decide as Hquit.
    { exists Break, [Prompt; Goodbye], []. rewrite app_nil_r.
      repeat split; try done; simpl; try lia.
      - intros a m H. by apply elem_of_nil in H.
      - intros name H.
        repeat (apply elem_of_cons in H as [[=]|H]). by apply elem_of_nil in H. }
    assert (∀ a m (calls : list call),
              (∀ x, x ∈ calls → x.2 = strip s) → (a, m) ∈ calls →
              ∃ s0, Line s = Line s0 ∧ m = strip s0 ∧ m ≠ ""
                    ∧ lower m ∉ quit_words) as Hcalls.
    { intros a m calls Hall Hin. exists s. apply Hall in Hin. simpl in Hin.
      subst m. done. }
    assert (∀ reply (out : list output),
              (∀ name, RoutingTo name ∈ out →
                 name = upper (normalize_routing (text reply))) →
              ∀ name, RoutingTo name ∈ out →
                      name ∈ ["HR"; "MARKETING"; "PRODUCTS"]) as Hout.
    { intros reply out Hall name Hin. rewrite (Hall name Hin).
      apply upper_category, normalize_routing_category. }
    destruct (run svc log router (strip s)) as [reply|e].
    + destruct (routed_bindings (text reply)) as (kb & ins & _ & -> & _).
      match goal with
      | |- context [run svc ?l ?a ?m] => destruct (run svc l a m) as [resp|e]
      end;
        (eexists _, _, _; split; [reflexivity|]);
        (split; [done|]); (split; [done|]); (split; [simpl; lia|]);
        (split;
         [ intros a m; apply Hcalls; intros x Hx;
           repeat (apply elem_of_cons in Hx as [->|Hx]); try done;
           by apply elem_of_nil in Hx
         | apply (Hout reply); intros name Hin;
           repeat (apply elem_of_cons in Hin as [Heq|Hin]);
           try discriminate Heq; try (by injection Heq);
           by apply elem_of_nil in Hin ]).
    + eexists _, _, _. split; [reflexivity|].
      split; [done|]. split; [done|]. split; [simpl; lia|].
      split.
      * intros a m. apply Hcalls. intros x Hx.
        apply list_elem_of_singleton in Hx as ->. done.
      * intros name Hin.
        repeat (apply elem_of_cons in Hin as [[=]|Hin]).
        by apply elem_of_nil in Hin.
  - exists Break, [Prompt; GoodbyeInterrupted], []. rewrite app_nil_r.
    repeat split; try done; simpl; try lia.
    + intros a m H. by apply elem_of_nil in H.
    + intros name H.
      repeat (apply elem_of_cons in H as [[=]|H]). by apply elem_of_nil in H.
  - exists Continue, [Prompt; Error (exn_str e)], []. rewrite app_nil_r.
    repeat split; try done; simpl; try lia.
    + intros a m H. by apply elem_of_nil in H.
    + intros name H.
      repeat (apply elem_of_cons in H as [[=]|H]). by apply elem_of_nil in H.
Qed.

Lemma loop_cons svc ev rest log :
  loop svc (ev :: rest) log =
  match loop_iteration svc ev log with
  | (Break, out, log') => (Break, out, log')
  | (Continue, out, log') =>
      match loop svc rest log' with
      | (st, out', log'') => (st, out ++ out', log'')
      end
  end.
Proof. reflexivity. Qed.

(** The loop on inputs that arrive in two parts. *)
Lemma loop_app svc a b log :
  loop svc (a ++ b) log =
  match loop svc a log with
  | (Break, out, log') => (Break, out, log')
  | (Continue, out, log') =>
      match loop svc b log' with
      | (st, out', log'') => (st, out ++ out', log'')
      end
  end.
Proof.
  revert log. induction a as [|ev a IH]; intros log.
  - simpl. by destruct (loop svc b log) as [[st out] log'].
  - rewrite <- app_comm_cons, !loop_cons.
    destruct (loop_iteration svc ev log) as [[[|] out1] log1]; [|done].
    rewrite IH.
    destruct (loop svc a log1) as [[[|] out2] log2]; [|done].
    destruct (loop svc b log2) as [[st out3] log3].
    by rewrite app_assoc.
Qed.

(** What the loop does, for all inputs and every service. *)
Lemma loop_facts svc inputs log :
  ∃ st out calls,
    loop svc inputs log = (st, out, log ++ calls)
    ∧ (st = Break ↔ ∃ ev, ev ∈ inputs ∧ stops ev = true)
    ∧ length calls ≤ 2 * length inputs
    ∧ (∀ a m, (a, m) ∈ calls →
         ∃ s, Line s ∈ inputs ∧ m = strip s ∧ m ≠ ""
              ∧ lower m ∉ quit_words)
    ∧ (∀ name, RoutingTo name ∈ out →
               name ∈ ["HR"; "MARKETING"; "PRODUCTS"]).
Proof.
  revert log. induction inputs as [|ev rest IH]; intros log.
  - exists Continue, [], []. rewrite app_nil_r. repeat split; try done.
    + intros (ev & Hin & _). by apply elem_of_nil in Hin.
    + intros a m H. by apply elem_of_nil in H.
    + intros name H. by apply elem_of_nil in H.
  - rewrite loop_cons.
    destruct (loop_iteration_facts svc ev log)
      as (st1 & out1 & calls1 & -> & Hst1 & Hstop1 & Hlen1 & Hcalls1 & Hout1).
    destruct st1.
    + destruct (IH (log ++ calls1))
        as (st2 & out2 & calls2 & -> & Hst2 & Hlen2 & Hcalls2 & Hout2).
      exists st2, (out1 ++ out2), (calls1 ++ calls2).
      rewrite <- app_assoc. split; [done|].
      split.
      { rewrite Hst2. split.
        - intros (ev' & Hin & Hs). exists ev'. split; [by right|done].
        - intros (ev' & Hin & Hs).
          apply elem_of_cons in Hin as [->|Hin]; [|by exists ev'].
          apply Hst1 in Hs. discriminate Hs. }
      split; [rewrite length_app; simpl; lia|].
      split.
      { intros a m [Hin|Hin]%elem_of_app.
        - destruct (Hcalls1 a m Hin) as (s & -> & Hm). exists s.
          split; [by left|done].
        - destruct (Hcalls2 a m Hin) as (s & Hs & Hm). exists s.
          split; [by right|done]. }
      intros name [Hin|Hin]%elem_of_app; auto.
    + exists Break, out1, calls1. split; [done|].
      split.
      { split; [|done]. intros _. exists ev. split; [by left|].
        by apply Hst1. }
      split; [simpl; lia|].
      split; [|done].
      intros a m Hin. destruct (Hcalls1 a m Hin) as (s & -> & Hm).
      exists s. split; [by left|done].
Qed.

(** X11: a line of white space, wherever it arrives, causes no call and does
    not change whether the loop ends nor which calls it makes. *)
Theorem blank_line_skipped svc pre s rest log :
  all_space s = true →
  (loop svc (pre ++ Line s :: rest) log).1.1 = (loop svc (pre ++ rest) log).1.1
  ∧ (loop svc (pre ++ Line s :: rest) log).2 = (loop svc (pre ++ rest) log).2.
Proof.
  intros Hs%strip_all_space. rewrite !loop_app.
  destruct (loop svc pre log) as [[[|] out1] log1]; [|done].
  rewrite loop_cons, loop_iteration_line, Hs. simpl.
  by destruct (loop svc rest log1) as [[st out2] log2].
Qed.

Lemma blank_line_skipped_witness :
  (loop plain_service ([Line "hello"] ++ Line "   " :: [Line "q"]) []).2
  = (loop plain_service ([Line "hello"] ++ [Line "q"]) []).2.
Proof.
  exact (proj2 (blank_line_skipped plain_service [Line "hello"] "   "
                  [Line "q"] [] eq_refl)).
Defined.

(** X12: after an interrupt or a quit word, in any case of the letters and
    with white space around it, nothing that arrives is read: the outputs and
    the calls are those of the inputs up to it, and the loop has ended. *)
Theorem nothing_after_stop svc pre ev rest log :
  stops ev = true →
  loop svc (pre ++ ev :: rest) log = loop svc (pre ++ [ev]) log
  ∧ (loop svc (pre ++ ev :: rest) log).1.1 = Break.
Proof.
  intros Hstop. rewrite !loop_app.
  destruct (loop svc pre log) as [[[|] out1] log1]; [|done].
  rewrite !loop_cons.
  destruct (loop_iteration_facts svc ev log1)
    as (st & out & calls & -> & Hst & _).
  apply Hst in Hstop as ->. done.
Qed.

Lemma nothing_after_stop_witness :
  loop plain_service ([Line "   "] ++ Line " QUIT " :: [Line "hello"]) []
  = loop plain_service ([Line "   "] ++ [Line " QUIT "]) [].
Proof.
  exact (proj1 (nothing_after_stop plain_service [Line "   "] (Line " QUIT ")
                  [Line "hello"] [] eq_refl)).
Defined.

(** X13: an exception of class [Exception] on entering the contexts leaves
    [run_orchestrator] before the banner, without a call. Once inside, when
    the lines are texts of ASCII characters and every call of an agent and of
    [input] returns or raises an exception of class [Exception] (the outcomes
    of a [service] and of an [input_event]), no such exception leaves the
    loop or ends it: the loop has ended exactly when an interrupt at the
    prompt or a quit word arrived. *)
Theorem loop_survives_errors inputs svc log :
  ascii_inputs inputs = true →
  match enter svc with
  | Some e => run_orchestrator inputs svc log = (Raise e, log)
  | None =>
      ∃ st out log',
        run_orchestrator inputs svc log = (Ok (st, Banner :: out), log')
        ∧ (st = Break ↔ ∃ ev, ev ∈ inputs ∧ stops ev = true)
  end.
Proof.
  intros _.
  unfold run_orchestrator. destruct (enter svc) as [e|]; [done|].
  destruct (loop_facts svc inputs log) as (st & out & calls & -> & Hst & _).
  by exists st, out, (log ++ calls).
Qed.

Lemma loop_survives_errors_witness :
  ∃ st out log',
    run_orchestrator session broken_service []
    = (Ok (st, Banner :: out), log')
    ∧ (st = Break ↔ ∃ ev, ev ∈ session ∧ stops ev = true).
Proof.
  exact (loop_survives_errors session broken_service [] eq_refl).
Defined.

(** X14: when the lines are texts of ASCII characters, every call the loop
    makes carries a line that arrived, stripped, which is not empty and not a
    quit word; the loop makes at most two calls per input and keeps the calls
    logged before. *)
Theorem loop_calls svc inputs log :
  ascii_inputs inputs = true →
  ∃ calls,
    (loop svc inputs log).2 = log ++ calls
    ∧ length calls ≤ 2 * length inputs
    ∧ ∀ a m, (a, m) ∈ calls →
        ∃ s, Line s ∈ inputs ∧ m = strip s ∧ m ≠ ""
             ∧ lower m ∉ quit_words.
Proof.
  intros _.
  destruct (loop_facts svc inputs log)
    as (st & out & calls & -> & _ & Hlen & Hcalls & _).
  by exists calls.
Qed.

Lemma loop_calls_witness :
  ∃ calls,
    (loop plain_service session []).2 = [] ++ calls
    ∧ length calls ≤ 2 * length session
    ∧ ∀ a m, (a, m) ∈ calls →
        ∃ s, Line s ∈ session ∧ m = strip s ∧ m ≠ ""
             ∧ lower m ∉ quit_words.
Proof.
  exact (loop_calls plain_service session [] eq_refl).
Defined.

(** X15: every route the loop announces is HR, MARKETING or PRODUCTS. *)
Theorem loop_announcements svc inputs log name :
  RoutingTo name ∈ (loop svc inputs log).1.2 →
  name ∈ ["HR"; "MARKETING"; "PRODUCTS"].
Proof.
  destruct (loop_facts svc inputs log)
    as (st & out & calls & -> & _ & _ & _ & Hout).
  apply Hout.
Qed.

Lemma loop_announcements_witness :
  "HR" ∈ ["HR"; "MARKETING"; "PRODUCTS"].
Proof.
  apply (loop_announcements plain_service [Line "How many PTO days?"] [] "HR").
  change (RoutingTo "HR"
            ∈ [Prompt; RoutingTo "HR"; Response (text plain_response);
               Separator]).
  right. left.
Defined.

(** X16: on a line of ASCII characters that is neither blank nor a quit
    word, when the reply of the routing agent is a text of ASCII characters,
    the loop makes the calls of [run_single_query] on the stripped line; it
    announces the route and writes the text that run returns, or ends its
    output with the error line of the exception of class [Exception] that
    run raises, and goes on. *)
Theorem loop_agrees_with_dispatch svc s log :
  is_ascii s = true →
  (∀ reply, run svc log router (strip s) = Ok reply →
            is_ascii (text reply) = true) →
  enter svc = None → strip s ≠ "" → lower (strip s) ∉ quit_words →
  match run_single_query (strip s) svc log with
  | (Ok (route, txt, _), log') =>
      loop_iteration svc (Line s) log
      = (Continue,
         [Prompt; RoutingTo (upper route); Response txt; Separator], log')
  | (Raise e, log') =>
      ∃ out, loop_iteration svc (Line s) log
             = (Continue, out ++ [Error (exn_str e)], log')
  end.
Proof.
  intros _ _ Henter Hblank Hquit.
  rewrite run_single_query_cases, loop_iteration_line, Henter.
  rewrite !bool_decide_eq_false_2 by done.
  destruct (run svc log router (strip s)) as [reply|e].
  - cbv zeta.
    destruct (specialists !! normalize_routing (text reply)) as [agent|].
    + rewrite <- app_assoc. simpl.
      destruct (run svc (log ++ [(router, strip s)]) agent (strip s))
        as [response|e]; [done|].
      by exists [Prompt; RoutingTo (upper (normalize_routing (text reply)))].
    + by exists [Prompt; RoutingTo (upper (normalize_routing (text reply)))].
  - by exists [Prompt].
Qed.

Lemma loop_agrees_with_dispatch_witness :
  loop_iteration plain_service (Line " How many PTO days do I have? ") []
  = (Continue,
     [Prompt; RoutingTo (upper "hr"); Response (text plain_response);
      Separator],
     [ (router, "How many PTO days do I have?");
       ({| context_provider := Some "kb1-hr";
           instructions := HR_INSTRUCTIONS |},
        "How many PTO days do I have?") ]).
Proof.
  refine (loop_agrees_with_dispatch plain_service
            " How many PTO days do I have? " [] eq_refl _ eq_refl _ _).
  - intros reply [= <-]. reflexivity.
  - vm_compute. discriminate.
  - apply (bool_decide_unpack _). vm_compute. exact I.
Defined.

(** A session with a service that always fails: two error lines, one call,
    and the loop ends at the quit word. *)
Example broken_session :
  loop broken_service session []
  = (Break,
     [ Prompt; Error "connection refused";
       Prompt; Error "EOF when reading a line";
       Prompt;
       Prompt; Goodbye ],
     [ (router, "What are the product specs?") ]).
Proof. vm_compute. reflexivity. Qed.

End CliFacts.
